(** * Nexus Desktop: bootstrap loader and readiness controller

    A shallow embedding of [main.tsx] (the bootstrap loader) and of
    [App.tsx] (the [App] component: its effect, its timers, its async
    [init] sequence, the recurring status poll, the cleanup function and
    the render function), together with the properties of the
    application-readiness state machine.

    Times are milliseconds since the effect ran, as [N].  The browser's
    event loop is a queue of pending tasks ordered by due time; tasks that
    are due at the same millisecond run in the order they were queued.  A
    timer callback, the resumption of [init] after an [await], the
    settling of a promise of the store, React running the cleanup and a
    press on the Retry button are all tasks.  Each [await] of [init] is a
    task of its own, so the code after it never runs inside the caller.

    The component is mounted once and its effect runs once, as in a
    production build.  [main.tsx] renders [App] inside [React.StrictMode]:
    in a development build React runs the effect, its cleanup and the
    effect once more at mount, so that whatever one run of the effect
    calls, logs or queues is there a second time (the first interval
    apart, which the cleanup clears at once).  What [init], the deadline
    and the listeners do is therefore stated as when a call or a log entry
    occurs and when a callback is queued, which a second run of the effect
    leaves as it is; how often is stated of one run of the effect only, in
    the lemmas that lead there.  The state keeps what the setter was last
    given, also after the cleanup, so that a late call of the setter stays
    visible.  What the environment decides
    (whether the bridge is there, what the listeners and each query do and
    when, when the teardown comes, when Retry is pressed) is a parameter of
    a run. *)

From Stdlib Require Import NArith List String Bool Lia.
Import ListNotations.

Local Open Scope string_scope.

(* ====================================================================== *)
(** * main.tsx: the bootstrap loader *)
(* ====================================================================== *)

Module Bootstrap.

(** An element of the page: which node of the tree it is, and its id.
    Two elements can carry the same id. *)
Record Element := { elem_node : nat; elem_id : string }.

(** The host page, as far as [getElementById] sees it. *)
Definition Document := list Element.

Definition getElementById (doc : Document) (id : string) : option Element :=
  find (fun el => String.eqb (elem_id el) id) doc.

(** What the module does to the outside world when it is loaded. *)
Inductive Effect :=
| Lookup (id : string)            (* document.getElementById(id) *)
| ConsoleLog (msg : string)
| ConsoleError (msg : string)
| CreateRoot (el : Element)       (* ReactDOM.createRoot(el) *)
| Render (el : Element).          (* .render(<React.StrictMode><App/></...>) *)

Definition main (doc : Document) : list Effect :=
  [ ConsoleLog "[main.tsx] Loading main.tsx";
    ConsoleLog "[main.tsx] Imports complete";
    ConsoleLog "[main.tsx] Tauri available:";
    Lookup "root";
    ConsoleLog "[main.tsx] Root element:" ]
  ++ match getElementById doc "root" with
     | Some rootElement =>
         [ CreateRoot rootElement;
           Render rootElement;
           ConsoleLog "[main.tsx] React render initiated" ]
     | None =>
         [ ConsoleError "[main.tsx] Root element not found!" ]
     end.

Definition lookups (tr : list Effect) : list string :=
  flat_map (fun x => match x with Lookup id => [id] | _ => [] end) tr.

Definition renders (tr : list Effect) : list Element :=
  flat_map (fun x => match x with Render el => [el] | _ => [] end) tr.

Definition roots_created (tr : list Effect) : list Element :=
  flat_map (fun x => match x with CreateRoot el => [el] | _ => [] end) tr.

Definition errors (tr : list Effect) : list string :=
  flat_map (fun x => match x with ConsoleError m => [m] | _ => [] end) tr.

End Bootstrap.

(* ====================================================================== *)
(** * App.tsx: the readiness controller *)
(* ====================================================================== *)

(** ** The store's status *)

(** Modelled from the spec: the store ([useNexusStore]) is not part of the
    sources; its [backend.status] field is the spec's BackendStatus,
    an enumeration of Unknown, Connected, Disconnected and Error whose
    value before any query has completed is Unknown.  The two strings the
    component compares against are the source's. *)
Inductive BackendStatus := Unknown | Connected | Disconnected | Error.

Definition status_str (b : BackendStatus) : string :=
  match b with
  | Unknown => "unknown"
  | Connected => "connected"
  | Disconnected => "disconnected"
  | Error => "error"
  end.

(** ** Rendering *)

(** The top-level pieces the component can return. [WarningBanner] is the
    yellow bar with the text and the Retry button. *)
Inductive Node := LoadingScreen | WarningBanner | MainLayout.

Definition showConnectionWarning (status : string) : bool :=
  String.eqb status "disconnected" || String.eqb status "error".

Definition render (isInitializing : bool) (status : string) : list Node :=
  if isInitializing then [LoadingScreen]
  else (if showConnectionWarning status then [WarningBanner] else [])
       ++ [MainLayout].

Definition node_eqb (a b : Node) : bool :=
  match a, b with
  | LoadingScreen, LoadingScreen
  | WarningBanner, WarningBanner
  | MainLayout, MainLayout => true
  | _, _ => false
  end.

Definition shows (n : Node) (v : list Node) : bool := existsb (node_eqb n) v.

(** ** The environment of one run *)

Inductive Caller := FromInit | FromPoll | FromRetry.

Inductive Settled := Fulfilled | Rejected.

(** What [initializeTauriListeners()] does when called. *)
Inductive ListenersOutcome :=
| LThrows                                (* throws before returning a promise *)
| LSettles (delay : N) (r : Settled)     (* its promise settles after [delay] *)
| LPending.                              (* its promise never settles *)

(** Modelled from the spec: [checkNexusStatus] lives in the store, which is
    not part of the sources.  It performs one backend status query and
    updates BackendStatus on completion: a successful query writes
    Connected, a failed one writes Disconnected or Error.  It is
    asynchronous: a call returns a promise at once.  Whether the promise
    of a failed query rejects is left to the environment, since the
    callers in the component install rejection handlers. *)
Inductive QueryOutcome :=
| QPending                                       (* never completes *)
| QSuccess (delay : N)
| QFailure (delay : N) (as_error rejects : bool).

Record Env := {
  window_defined : bool;              (* typeof window !== 'undefined' *)
  tauri : bool;                       (* truthiness of window.__TAURI__ *)
  listeners : ListenersOutcome;
  query : Caller -> N -> QueryOutcome; (* by call site and time of call *)
  teardown : option N;                (* when React runs the cleanup *)
  clicks : list N                     (* presses on the Retry button's spot *)
}.

(** ** Observable trace *)

Inductive Level := Log | Warn | Err.

Inductive Obs :=
| Console (lvl : Level) (msg : string)
| SetIsInitializing (old new : bool)   (* a call of the state setter *)
| ClearTimer (h : nat)                 (* clearTimeout / clearInterval *)
| CallListeners                        (* initializeTauriListeners() *)
| CallCheck (c : Caller)               (* checkNexusStatus() *)
| Unhandled (c : Caller)               (* rejection nobody handles *)
| CleanupRan.

(** ** Tasks and state *)

Inductive Action :=
| ForceShowUI                          (* callback of the 3000 ms timeout *)
| ListenersSettled (r : Settled)       (* init resumes after its first await *)
| StatusSettled (c : Caller) (st : BackendStatus) (r : Settled)
| StatusTimeout                        (* callback of the 2000 ms timeout *)
| PollTick                             (* callback of the 10000 ms interval *)
| Cleanup                              (* the function the effect returned *)
| RetryClick.                          (* a press where the Retry button is *)

Record Task := {
  due : N;
  timer : option nat;    (* the handle, for tasks made by setTimeout/setInterval *)
  act : Action
}.

Record State := mkState {
  now : N;
  isInitializing : bool;
  backend : BackendStatus;
  queue : list Task;
  next_timer : nat;
  forceShowUI : nat;     (* const forceShowUI = setTimeout(...) *)
  interval : nat;        (* const interval = setInterval(...) *)
  racing : bool;         (* init is suspended in await Promise.race([...]) *)
  mounted : bool;        (* the cleanup has not run *)
  trace : list (N * Obs) (* newest first *)
}.

Definition set_now (t : N) (s : State) : State :=
  mkState t (isInitializing s) (backend s) (queue s) (next_timer s)
          (forceShowUI s) (interval s) (racing s) (mounted s) (trace s).

Definition set_flag (b : bool) (s : State) : State :=
  mkState (now s) b (backend s) (queue s) (next_timer s)
          (forceShowUI s) (interval s) (racing s) (mounted s) (trace s).

Definition set_backend (b : BackendStatus) (s : State) : State :=
  mkState (now s) (isInitializing s) b (queue s) (next_timer s)
          (forceShowUI s) (interval s) (racing s) (mounted s) (trace s).

Definition set_queue (q : list Task) (s : State) : State :=
  mkState (now s) (isInitializing s) (backend s) q (next_timer s)
          (forceShowUI s) (interval s) (racing s) (mounted s) (trace s).

Definition set_next_timer (n : nat) (s : State) : State :=
  mkState (now s) (isInitializing s) (backend s) (queue s) n
          (forceShowUI s) (interval s) (racing s) (mounted s) (trace s).

Definition set_forceShowUI (h : nat) (s : State) : State :=
  mkState (now s) (isInitializing s) (backend s) (queue s) (next_timer s)
          h (interval s) (racing s) (mounted s) (trace s).

Definition set_interval (h : nat) (s : State) : State :=
  mkState (now s) (isInitializing s) (backend s) (queue s) (next_timer s)
          (forceShowUI s) h (racing s) (mounted s) (trace s).

Definition set_racing (b : bool) (s : State) : State :=
  mkState (now s) (isInitializing s) (backend s) (queue s) (next_timer s)
          (forceShowUI s) (interval s) b (mounted s) (trace s).

Definition set_mounted (b : bool) (s : State) : State :=
  mkState (now s) (isInitializing s) (backend s) (queue s) (next_timer s)
          (forceShowUI s) (interval s) (racing s) b (trace s).

Definition emit (o : Obs) (s : State) : State :=
  mkState (now s) (isInitializing s) (backend s) (queue s) (next_timer s)
          (forceShowUI s) (interval s) (racing s) (mounted s)
          ((now s, o) :: trace s).

Local Open Scope N_scope.

(** ** The task queue *)

(** A new task goes behind every queued task that is due no later. *)
Fixpoint insert (t : Task) (q : list Task) : list Task :=
  match q with
  | [] => [t]
  | u :: q' => if due t <? due u then t :: q else u :: insert t q'
  end.

Definition has_handle (h : nat) (t : Task) : bool :=
  match timer t with
  | Some h' => Nat.eqb h h'
  | None => false
  end.

Definition schedule (a : Action) (delay : N) (s : State) : State :=
  set_queue (insert {| due := now s + delay; timer := None; act := a |}
                    (queue s)) s.

(** ** Browser and React primitives *)

Definition console (lvl : Level) (msg : string) : State -> State :=
  emit (Console lvl msg).

Definition setIsInitializing (b : bool) (s : State) : State :=
  set_flag b (emit (SetIsInitializing (isInitializing s) b) s).

(** [setTimeout] and [setInterval] hand out the next handle. *)
Definition setTimer (a : Action) (delay : N) (s : State) : nat * State :=
  (next_timer s,
   set_next_timer (S (next_timer s))
     (set_queue (insert {| due := now s + delay;
                           timer := Some (next_timer s);
                           act := a |} (queue s)) s)).

Definition clearTimer (h : nat) (s : State) : State :=
  set_queue (filter (fun t => negb (has_handle h t)) (queue s))
            (emit (ClearTimer h) s).

(** ** The store's operations, as the component sees them *)

(** Modelled from the spec: the status the store writes when a query has
    failed (the store is not part of the sources). *)
Definition failure_status (as_error : bool) : BackendStatus :=
  if as_error then Error else Disconnected.

(** Modelled from the spec: [checkNexusStatus] of the store (not part of
    the sources), as its callers see it.  The call returns a promise at
    once; when the query completes, the store writes the status and the
    promise settles, which is the task [StatusSettled]. *)
Definition checkNexusStatus (e : Env) (c : Caller) (s : State) : State :=
  let s := emit (CallCheck c) s in
  match query e c (now s) with
  | QPending => s
  | QSuccess d => schedule (StatusSettled c Connected Fulfilled) d s
  | QFailure d as_error rejects =>
      schedule (StatusSettled c (failure_status as_error)
                              (if rejects then Rejected else Fulfilled)) d s
  end.

(** ** The effect of [App] *)

(** The [finally] block of [init]. *)
Definition init_finally (s : State) : State :=
  let s := console Log "[App] Initialization complete, showing UI" s in
  let s := clearTimer (forceShowUI s) s in
  setIsInitializing false s.

(** The outer [catch] of [init], followed by [finally]. *)
Definition init_failed (s : State) : State :=
  init_finally (console Err "[App] Failed to initialize:" s).

(** [init()] up to its first suspension. *)
Definition init (e : Env) (s : State) : State :=
  let s := console Log "[App] Starting initialization..." s in
  if window_defined e && negb (tauri e) then
    let s := console Err "[App] Tauri runtime not available!" s in
    let s := setIsInitializing false s in
    let s := clearTimer (forceShowUI s) s in
    init_finally s
  else
    let s := console Log "[App] Tauri runtime detected" s in
    let s := emit CallListeners s in
    match listeners e with
    | LThrows => init_failed s
    | LSettles d r => schedule (ListenersSettled r) d s
    | LPending => s
    end.

(** The body of the effect. *)
Definition useEffect (e : Env) (s : State) : State :=
  let s := console Log "[App] useEffect triggered" s in
  let (h, s) := setTimer ForceShowUI 3000 s in
  let s := set_forceShowUI h s in
  let s := init e s in
  let (i, s) := setTimer PollTick 10000 s in
  set_interval i s.

(** What one task does when the event loop runs it. *)
Definition exec (e : Env) (a : Action) (s : State) : State :=
  match a with
  | ForceShowUI =>
      setIsInitializing false
        (console Warn "[App] Force showing UI after 3 seconds" s)
  | ListenersSettled Fulfilled =>
      let s := console Log "[App] Tauri listeners initialized" s in
      let s := checkNexusStatus e FromInit s in
      let (_, s) := setTimer StatusTimeout 2000 s in
      set_racing true s
  | ListenersSettled Rejected => init_failed s
  | StatusSettled c st r =>
      let s := set_backend st s in
      match c, r with
      | FromInit, Fulfilled =>
          if racing s then
            init_finally
              (console Log "[App] Status check completed" (set_racing false s))
          else s
      | FromInit, Rejected =>
          if racing s then
            init_finally
              (console Warn "[App] Status check failed or timed out:"
                       (set_racing false s))
          else s
      | FromPoll, Fulfilled => s
      | FromPoll, Rejected => console Err "[App] Status check failed:" s
      | FromRetry, Fulfilled => s
      | FromRetry, Rejected => emit (Unhandled FromRetry) s
      end
  | StatusTimeout =>
      if racing s then
        init_finally
          (console Warn "[App] Status check failed or timed out:"
                   (set_racing false s))
      else s
  | PollTick =>
      (* the interval stays armed: the next tick is 10000 ms away *)
      let s := set_queue (insert {| due := now s + 10000;
                                    timer := Some (interval s);
                                    act := PollTick |} (queue s)) s in
      checkNexusStatus e FromPoll s
  | Cleanup =>
      set_mounted false (clearTimer (interval s) (emit CleanupRan s))
  | RetryClick =>
      if mounted s
         && shows WarningBanner
                  (render (isInitializing s) (status_str (backend s)))
      then checkNexusStatus e FromRetry s
      else s
  end.

(** ** The event loop *)

Definition step (e : Env) (s : State) : State :=
  match queue s with
  | [] => s
  | t :: q => exec e (act t) (set_queue q (set_now (due t) s))
  end.

(** Run every task that is due at or before [T]. *)
Fixpoint loop (e : Env) (T : N) (fuel : nat) (s : State) : State :=
  match fuel with
  | O => s
  | S fuel' =>
      match queue s with
      | [] => s
      | t :: _ => if due t <=? T then loop e T fuel' (step e s) else s
      end
  end.

(** An upper bound on the tasks a queued task stands for up to time [T]:
    itself and the tasks it can queue. *)
Definition weight (T : N) (t : Task) : nat :=
  if T <? due t then O
  else match act t with
       | ListenersSettled Fulfilled => 3
       | RetryClick => 2
       | PollTick => 2 * S (N.to_nat ((T - due t) / 10000))
       | _ => 1
       end%nat.

Definition budget (T : N) (q : list Task) : nat :=
  fold_right (fun t n => (weight T t + n)%nat) O q.

Definition external_task (a : Action) (t : N) : Task :=
  {| due := t; timer := None; act := a |}.

(** Things that happen to the component from outside. *)
Definition external (e : Env) : list Task :=
  fold_right (fun t q => insert (external_task RetryClick t) q)
             match teardown e with
             | Some td => [external_task Cleanup td]
             | None => []
             end
             (clicks e).

(** The component before its effect runs: [useState(true)], the store's
    status at its first value, nothing queued but what will come from
    outside. *)
Definition mount (e : Env) : State :=
  {| now := 0; isInitializing := true; backend := Unknown;
     queue := external e; next_timer := 1;
     forceShowUI := 0; interval := 0;
     racing := false; mounted := true; trace := [] |}.

(** The component once its effect has run (one run of the effect: see the
    note on [React.StrictMode] at the top). *)
Definition started (e : Env) : State := useEffect e (mount e).

(** The state once everything due up to [T] has run. *)
Definition run (e : Env) (T : N) : State :=
  loop e T (budget T (queue (started e))) (started e).

(** ** Reading the trace *)

Definition is_flip (o : Obs) : bool :=
  match o with
  | SetIsInitializing old new => negb (Bool.eqb old new)
  | _ => false
  end.

(** Times at which the readiness flag changed value. *)
Definition flips (tr : list (N * Obs)) : list N :=
  map fst (filter (fun x => is_flip (snd x)) tr).

Definition is_check (c : Caller) (o : Obs) : bool :=
  match o, c with
  | CallCheck FromInit, FromInit
  | CallCheck FromPoll, FromPoll
  | CallCheck FromRetry, FromRetry => true
  | _, _ => false
  end.

(** Times at which [checkNexusStatus] was called from call site [c]. *)
Definition checks (c : Caller) (tr : list (N * Obs)) : list N :=
  map fst (filter (fun x => is_check c (snd x)) tr).

(* ====================================================================== *)
(** * The vocabulary of the properties *)
(* ====================================================================== *)

(** ** The queue discipline *)

(** The queue is ordered by due time. *)
Fixpoint sorted (q : list Task) : Prop :=
  match q with
  | [] => True
  | t :: q' => Forall (fun u => due t <= due u) q' /\ sorted q'
  end.

(** Nothing that is due by [T] is left to run. *)
Definition quiescent (T : N) (s : State) : Prop :=
  Forall (fun t => T < due t) (queue s).

(** The probe of [init]: [window] is there and [window.__TAURI__] is not. *)
Definition absent (e : Env) : bool := window_defined e && negb (tauri e).

(** How long a query takes to complete, if it does. *)
Definition query_delay (q : QueryOutcome) : option N :=
  match q with
  | QPending => None
  | QSuccess d | QFailure d _ _ => Some d
  end.

Definition is_force (a : Action) : bool :=
  match a with ForceShowUI => true | _ => false end.

Definition is_poll (a : Action) : bool :=
  match a with PollTick => true | _ => false end.

(** When a queued task is due, by what made it. *)
Definition timing (e : Env) (t : Task) : Prop :=
  match act t with
  | ForceShowUI => due t = 3000
  | PollTick => exists k, due t = 10000 * (k + 1)
  | ListenersSettled r =>
      absent e = false /\ listeners e = LSettles (due t) r
  | StatusTimeout =>
      absent e = false /\
      exists L, listeners e = LSettles L Fulfilled /\ due t = L + 2000
  | StatusSettled FromInit _ _ =>
      absent e = false /\
      exists L d, listeners e = LSettles L Fulfilled /\
                  query_delay (query e FromInit L) = Some d /\
                  due t = L + d
  | Cleanup => teardown e = Some (due t)
  | _ => True
  end.

(** Handle 1 is the deadline's and handle 2 is the poll's. *)
Definition task_ok (e : Env) (t : Task) : Prop :=
  has_handle 1 t = is_force (act t) /\
  has_handle 2 t = is_poll (act t) /\
  timing e t.

(** What every state of a run satisfies: the queue is ordered, nothing in it
    is overdue, every task is due when its maker said, and the two handles
    the effect keeps are the first two handed out. *)
Record Base (e : Env) (s : State) : Prop := {
  b_sorted : sorted (queue s);
  b_due : Forall (fun t => now s <= due t) (queue s);
  b_ok : Forall (task_ok e) (queue s);
  b_force : forceShowUI s = 1%nat;
  b_interval : interval s = 2%nat;
  b_next : (3 <= next_timer s)%nat
}.

(** The three tasks the effect can queue. *)
Definition deadline_task : Task :=
  {| due := 3000; timer := Some 1%nat; act := ForceShowUI |}.

Definition first_tick : Task :=
  {| due := 10000; timer := Some 2%nat; act := PollTick |}.

Definition listeners_task (d : N) (r : Settled) : Task :=
  {| due := d; timer := None; act := ListenersSettled r |}.

(** What [clearTimeout(forceShowUI)] leaves of a queue. *)
Definition clear1 (q : list Task) : list Task :=
  filter (fun t => negb (has_handle 1 t)) q.

(** ** Readiness *)

(** The moment the loading screen goes away, computed from the
    environment alone. *)
Definition ready_time (e : Env) : N :=
  if absent e then 0
  else match listeners e with
       | LThrows => 0
       | LPending => 3000
       | LSettles L Rejected => N.min L 3000
       | LSettles L Fulfilled =>
           match query_delay (query e FromInit L) with
           | None => N.min (L + 2000) 3000
           | Some d => N.min (L + N.min d 2000) 3000
           end
       end.

(** A task with action [a] is queued, and it is not a poll tick. *)
Definition queued (a : Action) (q : list Task) : Prop :=
  exists t, In t q /\ act t = a /\ has_handle 2 t = false.

(** [keeps q q']: going from [q] to [q'] drops nothing but poll ticks. *)
Definition keeps (q q' : list Task) : Prop :=
  forall x, In x q -> has_handle 2 x = false -> In x q'.

(** What [init] is suspended on while the loading screen is up. *)
Definition awaiting (e : Env) (r : bool) (q : list Task) : Prop :=
  match listeners e with
  | LThrows => False
  | LPending => True
  | LSettles _ Rejected => queued (ListenersSettled Rejected) q
  | LSettles L Fulfilled =>
      (r = false /\ queued (ListenersSettled Fulfilled) q) \/
      (r = true /\ queued StatusTimeout q /\
       (query_delay (query e FromInit L) <> None ->
        exists st x, queued (StatusSettled FromInit st x) q))
  end.

(** While the loading screen is up the flag has never changed, the deadline
    is armed and [init] is suspended on something queued; once it is gone
    the flag has changed exactly once, at [ready_time e]. *)
Record Ready_inv (e : Env) (s : State) : Prop := {
  r_init : isInitializing s = true ->
           absent e = false /\ flips (trace s) = [] /\
           queued ForceShowUI (queue s) /\
           awaiting e (racing s) (queue s);
  r_ready : isInitializing s = false ->
            flips (trace s) = [ready_time e] /\ ready_time e <= now s
}.

(** Which queued tasks [awaiting] looks at, given the [racing] flag. *)
Definition relevant (r : bool) (a : Action) : Prop :=
  match a with
  | ListenersSettled Rejected => True
  | ListenersSettled Fulfilled => r = false
  | StatusTimeout | StatusSettled FromInit _ _ => r = true
  | _ => False
  end.

(** The tasks that can take the loading screen down. *)
Definition flipping (r : bool) (a : Action) : Prop :=
  match a with
  | ForceShowUI | ListenersSettled Rejected => True
  | StatusTimeout | StatusSettled FromInit _ _ => r = true
  | _ => False
  end.

(** A trace entry that is not a call of the setter with [true]. *)
Definition setter_false (x : N * Obs) : Prop :=
  match snd x with
  | SetIsInitializing _ new => new = false
  | _ => True
  end.

(** ** What a task may write and queue *)

(** [grows P tr tr']: [tr'] is [tr] with newer entries in front, all in [P]. *)
Inductive grows (P : N * Obs -> Prop) (tr : list (N * Obs))
  : list (N * Obs) -> Prop :=
| grows_same : grows P tr tr
| grows_more x tr' : P x -> grows P tr tr' -> grows P tr (x :: tr').

(** The task that calls [checkNexusStatus] for each call site. *)
Definition call_site (c : Caller) : Action :=
  match c with
  | FromInit => ListenersSettled Fulfilled
  | FromPoll => PollTick
  | FromRetry => RetryClick
  end.

(** The entries task [a] can write. *)
Definition allowed (a : Action) (o : Obs) : Prop :=
  match o with
  | Console _ _ | ClearTimer _ => True
  | SetIsInitializing _ new => new = false
  | CallListeners => False
  | CallCheck c => a = call_site c
  | Unhandled c =>
      c = FromRetry /\ exists st, a = StatusSettled FromRetry st Rejected
  | CleanupRan => a = Cleanup
  end.

(** An entry written by task [a] running at time [t]. *)
Definition written (a : Action) (t : N) (x : N * Obs) : Prop :=
  fst x = t /\ allowed a (snd x).

(** The tasks task [a] can queue. *)
Definition spawned (a : Action) (x : Task) : Prop :=
  match act x with
  | StatusSettled c _ _ => a = call_site c
  | StatusTimeout => a = ListenersSettled Fulfilled
  | PollTick => a = PollTick
  | _ => False
  end.

(** ** Before the first status result *)

(** No status result can land at or before [T]: the poll has not ticked,
    and the first check, if [init] gets to it, takes longer. *)
Definition early (e : Env) (T : N) : Prop :=
  T < 10000 /\
  (absent e = false ->
   forall L d, listeners e = LSettles L Fulfilled ->
               query_delay (query e FromInit L) = Some d -> T < L + d).

(** A queued task that is not the result of a poll's or a retry's query. *)
Definition from_init_only (t : Task) : Prop :=
  match act t with
  | StatusSettled FromInit _ _ => True
  | StatusSettled _ _ _ => False
  | _ => True
  end.

(** A trace entry that is not a query from the poll or the Retry button. *)
Definition no_later_check (x : N * Obs) : Prop :=
  is_check FromPoll (snd x) = false /\ is_check FromRetry (snd x) = false.

(** Nothing has written the status yet, and only [init] may have queried. *)
Record Untouched (s : State) : Prop := {
  u_backend : backend s = Unknown;
  u_trace : Forall no_later_check (trace s);
  u_queue : Forall from_init_only (queue s)
}.

(** [init] never gets to its status check: it stops at the probe, or the
    listeners do not succeed. *)
Definition skips_check (e : Env) : Prop :=
  absent e = true \/ forall L, listeners e <> LSettles L Fulfilled.

(** Registering the listeners throws, or its promise rejects. *)
Definition listeners_fail (e : Env) : Prop :=
  listeners e = LThrows \/ exists d, listeners e = LSettles d Rejected.

(** The moment the failure surfaces in [init]. *)
Definition failure_time (e : Env) : N :=
  match listeners e with
  | LSettles d _ => d
  | _ => 0
  end.

(** ** The poll and the cleanup *)

(** The entries written since the cleanup ran, if it has. *)
Fixpoint since_cleanup (tr : list (N * Obs)) : option (list (N * Obs)) :=
  match tr with
  | [] => None
  | x :: tr' =>
      match snd x with
      | CleanupRan => Some []
      | _ => option_map (cons x) (since_cleanup tr')
      end
  end.

(** A call from the poll is at a multiple of 10000 ms. *)
Definition poll_time_ok (x : N * Obs) : Prop :=
  is_check FromPoll (snd x) = true -> exists k, fst x = 10000 * (k + 1).

(** Ticks [1] to [k] have called [checkNexusStatus]. *)
Definition ticked (k : N) (tr : list (N * Obs)) : Prop :=
  forall j, j < k -> In (10000 * (j + 1)) (checks FromPoll tr).

(** While mounted, the next tick is queued and all earlier ones have called
    [checkNexusStatus], the cleanup is queued if a teardown is to come, and
    the trace has no cleanup; once unmounted, no tick is queued, the
    cleanup is in the trace at the teardown time, every tick before it has
    called, and no call from the poll follows it. *)
Record Polling (e : Env) (s : State) : Prop := {
  p_up : mounted s = true ->
         (exists k x, In x (queue s) /\ act x = PollTick /\
                      due x = 10000 * (k + 1) /\ ticked k (trace s)) /\
         (forall td, teardown e = Some td ->
                     exists c, In c (queue s) /\ act c = Cleanup) /\
         since_cleanup (trace s) = None;
  p_down : mounted s = false ->
           Forall (fun t => act t <> PollTick) (queue s) /\
           (exists td, teardown e = Some td /\ td <= now s /\
                       In (td, CleanupRan) (trace s) /\
                       forall j, 10000 * (j + 1) < td ->
                                 In (10000 * (j + 1))
                                    (checks FromPoll (trace s))) /\
           exists l, since_cleanup (trace s) = Some l /\
                     checks FromPoll l = [];
  p_times : Forall poll_time_ok (trace s)
}.

(** ** Environments of particular runs *)

(** The bridge is there; listeners after 50 ms, every query succeeds after
    500 ms. *)
Definition quick_backend : Env :=
  {| window_defined := true; tauri := true;
     listeners := LSettles 50 Fulfilled;
     query := fun _ _ => QSuccess 500;
     teardown := None; clicks := [] |}.

(** No bridge; queries fail after 100 ms without rejecting. *)
Definition no_bridge : Env :=
  {| window_defined := true; tauri := false;
     listeners := LSettles 50 Fulfilled;
     query := fun _ _ => QFailure 100 false false;
     teardown := None; clicks := [] |}.

(** Listeners at once; no query ever completes. *)
Definition hung_backend : Env :=
  {| window_defined := true; tauri := true;
     listeners := LSettles 0 Fulfilled;
     query := fun _ _ => QPending;
     teardown := None; clicks := [] |}.


(** Registering the listeners throws. *)
Definition broken_listeners : Env :=
  {| window_defined := true; tauri := true;
     listeners := LThrows;
     query := fun _ _ => QSuccess 100;
     teardown := None; clicks := [] |}.

(** The listeners' promise rejects after 100 ms. *)
Definition rejecting_listeners : Env :=
  {| window_defined := true; tauri := true;
     listeners := LSettles 100 Rejected;
     query := fun _ _ => QSuccess 100;
     teardown := None; clicks := [] |}.

(** Every query fails after 100 ms and rejects; Retry is pressed at
    5000 ms. *)
Definition flaky_backend : Env :=
  {| window_defined := true; tauri := true;
     listeners := LSettles 0 Fulfilled;
     query := fun _ _ => QFailure 100 false true;
     teardown := None; clicks := [5000] |}.

(** [init] hangs on the listeners; teardown at 1000 ms. *)
Definition unmounted_early : Env :=
  {| window_defined := true; tauri := true;
     listeners := LPending;
     query := fun _ _ => QPending;
     teardown := Some 1000; clicks := [] |}.

(** Listeners after 2000 ms, the first check succeeds; teardown at
    1000 ms. *)
Definition unmounted_mid_init : Env :=
  {| window_defined := true; tauri := true;
     listeners := LSettles 2000 Fulfilled;
     query := fun _ _ => QSuccess 100;
     teardown := Some 1000; clicks := [] |}.

(** ** Further readings of a run *)

(** The teardown has come by [T]. *)
Definition torn_down (e : Env) (T : N) : bool :=
  match teardown e with
  | Some td => td <=? T
  | None => false
  end.

(** What is on screen at time [T]: what the component renders while it is
    mounted, and nothing once it is unmounted. *)
Definition screen (e : Env) (T : N) : list Node :=
  if mounted (run e T)
  then render (isInitializing (run e T)) (status_str (backend (run e T)))
  else [].

(** Times of the trace entries that satisfy [p]. *)
Definition times (p : Obs -> bool) (tr : list (N * Obs)) : list N :=
  map fst (filter (fun x => p (snd x)) tr).



Definition is_listeners_call (o : Obs) : bool :=
  match o with CallListeners => true | _ => false end.

(** The tasks of a queue whose action satisfies [pa], in queue order. *)
Definition sub (pa : Action -> bool) (q : list Task) : list Task :=
  filter (fun t => pa (act t)) q.




Definition is_click (a : Action) : bool :=
  match a with RetryClick => true | _ => false end.

(** The tasks that run the [finally] block of [init]. *)
Definition finishing (r : bool) (a : Action) : bool :=
  match a with
  | ListenersSettled Rejected => true
  | StatusTimeout | StatusSettled FromInit _ _ => r
  | _ => false
  end.

(** The actions of the tasks that task [a] can queue. *)
Definition spawns (a b : Action) : Prop :=
  match b with
  | StatusSettled c _ _ => a = call_site c
  | StatusTimeout => a = ListenersSettled Fulfilled
  | PollTick => a = PollTick
  | _ => False
  end.






















(** The [k]-th tick of the interval. *)
Definition tick (k : nat) : Task :=
  {| due := 10000 * N.of_nat k; timer := Some 2%nat; act := PollTick |}.

(** The times of the first [k] ticks, newest first. *)
Fixpoint poll_times (k : nat) : list N :=
  match k with
  | O => []
  | S k' => 10000 * N.of_nat k :: poll_times k'
  end.

(** Up to when the poll is armed in a run observed at [T]. *)
Definition horizon (e : Env) (T : N) : N :=
  match teardown e with
  | Some td => N.min td T
  | None => T
  end.

(** The teardown does not come at the very moment of a tick. *)
Definition off_beat (e : Env) : Prop :=
  forall td, teardown e = Some td -> td mod 10000 <> 0.

(** The poll has called [checkNexusStatus] at its first [k] ticks and at
    no other time; while mounted the next tick is the one queued, once
    unmounted none is, and the teardown came between ticks [k] and
    [k + 1]. *)
Definition Ticks_inv (e : Env) (s : State) : Prop :=
  exists k : nat,
    checks FromPoll (trace s) = poll_times k /\
    10000 * N.of_nat k <= now s /\
    if mounted s then sub is_poll (queue s) = [tick (S k)]
    else sub is_poll (queue s) = [] /\
         exists td, teardown e = Some td /\
                    10000 * N.of_nat k <= td <= 10000 * N.of_nat (S k).

(** Every query made for the Retry button was made at the time of a press,
    with the loading screen gone, and every press still to come is one the
    environment has in store. *)
Record Retry_inv (e : Env) (s : State) : Prop := {
  y_checks : Forall (fun t => In t (clicks e) /\ ready_time e <= t)
                    (checks FromRetry (trace s));
  y_queue : Forall (fun x => act x = RetryClick -> In (due x) (clicks e))
                   (queue s)
}.

(* ====================================================================== *)
(** * Invariants of the event loop *)
(* ====================================================================== *)

(** ** The queue *)

Lemma In_insert (x t : Task) (q : list Task) :
  In x (insert t q) <-> x = t \/ In x q.
Proof.
  induction q as [|u q IH]; simpl.
  - intuition congruence.
  - destruct (due t <? due u); simpl; rewrite ?IH; intuition congruence.
Qed.

Lemma Forall_insert (P : Task -> Prop) (t : Task) (q : list Task) :
  Forall P (insert t q) <-> P t /\ Forall P q.
Proof.
  rewrite !Forall_forall. split.
  - intros H. split; [apply H | intros x Hx; apply H];
      apply In_insert; auto.
  - intros [Ht Hq] x Hx. apply In_insert in Hx as [->|Hx]; auto.
Qed.

Lemma Forall_filter (P : Task -> Prop) (f : Task -> bool) (q : list Task) :
  Forall P q -> Forall P (filter f q).
Proof.
  rewrite !Forall_forall. intros H x Hx.
  apply filter_In in Hx as [Hx _]. auto.
Qed.

Lemma sorted_insert (t : Task) (q : list Task) :
  sorted q -> sorted (insert t q).
Proof.
  induction q as [|u q IH]; simpl.
  - auto.
  - intros [Hu Hq]. destruct (due t <? due u) eqn:E; simpl.
    + apply N.ltb_lt in E. repeat split; auto.
      constructor; [lia|].
      eapply Forall_impl; [|exact Hu]. simpl. intros; lia.
    + apply N.ltb_ge in E. split; auto.
      apply Forall_insert. auto.
Qed.

Lemma sorted_filter (f : Task -> bool) (q : list Task) :
  sorted q -> sorted (filter f q).
Proof.
  induction q as [|u q IH]; simpl; auto.
  intros [Hu Hq]. destruct (f u); simpl; auto using Forall_filter.
Qed.

Lemma sorted_head (t : Task) (q : list Task) (x : Task) :
  sorted (t :: q) -> In x (t :: q) -> due t <= due x.
Proof.
  simpl. intros [Hu _] [->|Hx]; [lia|].
  rewrite Forall_forall in Hu. auto.
Qed.

(** ** Enough fuel *)

Lemma budget_insert (T : N) (t : Task) (q : list Task) :
  budget T (insert t q) = (weight T t + budget T q)%nat.
Proof.
  induction q as [|u q IH]; simpl; auto.
  destruct (due t <? due u); simpl; lia.
Qed.

Lemma budget_filter (T : N) (f : Task -> bool) (q : list Task) :
  (budget T (filter f q) <= budget T q)%nat.
Proof.
  induction q as [|u q IH]; simpl; auto.
  destruct (f u); simpl; lia.
Qed.

Lemma weight_le_1 (T : N) (d : N) (h : option nat) (a : Action) :
  match a with
  | ListenersSettled Fulfilled | RetryClick | PollTick => False
  | _ => True
  end ->
  (weight T {| due := d; timer := h; act := a |} <= 1)%nat.
Proof.
  unfold weight; simpl. destruct (T <? d); [lia|].
  destruct a as [|[]| | | | |]; simpl; intros; try lia; contradiction.
Qed.

Lemma weight_next_tick (T d : N) (h h' : option nat) :
  d <= T ->
  (weight T {| due := d + 10000; timer := h; act := PollTick |} + 2
   <= weight T {| due := d; timer := h'; act := PollTick |})%nat.
Proof.
  intros Hd. unfold weight; cbn [due act].
  destruct (T <? d) eqn:E1; [apply N.ltb_lt in E1; lia|].
  destruct (T <? d + 10000) eqn:E2;
    [generalize (N.to_nat ((T - d) / 10000)); intros; lia|].
  apply N.ltb_ge in E2.
  replace (T - d) with ((T - (d + 10000)) + 1 * 10000) by lia.
  rewrite N.div_add by lia. rewrite N2Nat.inj_add.
  change (N.to_nat 1) with 1%nat.
  generalize (N.to_nat ((T - (d + 10000)) / 10000)). intros; lia.
Qed.

Ltac ops :=
  cbn [now isInitializing backend queue next_timer forceShowUI interval
       racing mounted trace due timer act fst snd
       init_failed init_finally setIsInitializing
       clearTimer setTimer console schedule emit set_now set_flag
       set_backend set_queue set_next_timer set_forceShowUI set_interval
       set_racing set_mounted] in *.

Lemma check_budget (e : Env) (T : N) (c : Caller) (s : State) :
  (budget T (queue (checkNexusStatus e c s)) <= 1 + budget T (queue s))%nat.
Proof.
  unfold checkNexusStatus. cbn zeta.
  change (now (emit (CallCheck c) s)) with (now s).
  destruct (query e c (now s)) as [|d|d er rj]; ops;
    rewrite ?budget_insert; try lia.
  - pose proof (weight_le_1 T (now s + d) None
                  (StatusSettled c Connected Fulfilled) I). lia.
  - pose proof (weight_le_1 T (now s + d) None
                  (StatusSettled c (failure_status er)
                     (if rj then Rejected else Fulfilled)) I). lia.
Qed.

Lemma finally_budget (T : N) (s : State) :
  (budget T (queue (init_finally s)) <= budget T (queue s))%nat.
Proof. ops. apply budget_filter. Qed.

Lemma failed_budget (T : N) (s : State) :
  (budget T (queue (init_failed s)) <= budget T (queue s))%nat.
Proof. ops. apply budget_filter. Qed.

(** Running a task that is due by [T] uses up at least one unit of the
    budget: what it queues weighs less than it did. *)
Lemma exec_budget (e : Env) (T : N) (t : Task) (s : State) :
  now s = due t -> due t <= T ->
  (budget T (queue (exec e (act t) s)) + 1
   <= weight T t + budget T (queue s))%nat.
Proof.
  intros Hnow HT. destruct t as [d h a]; cbn [due act] in *.
  assert (W : weight T {| due := d; timer := h; act := a |} =
              match a with
              | ListenersSettled Fulfilled => 3
              | RetryClick => 2
              | PollTick => 2 * S (N.to_nat ((T - d) / 10000))
              | _ => 1
              end%nat).
  { unfold weight; cbn [due act].
    destruct (T <? d) eqn:E; [apply N.ltb_lt in E; lia|reflexivity]. }
  destruct a as [|[|]|c st r| | | |]; cbn [exec].
  - rewrite W. ops. lia.
  - rewrite W.
    set (s1 := checkNexusStatus e FromInit
                 (console Log "[App] Tauri listeners initialized" s)).
    pose proof (check_budget e T FromInit
                  (console Log "[App] Tauri listeners initialized" s)) as H1.
    fold s1 in H1. change (queue (console _ _ s)) with (queue s) in H1.
    destruct (setTimer StatusTimeout 2000 s1) as [i s2] eqn:E.
    unfold setTimer in E. injection E as _ <-. ops.
    rewrite budget_insert.
    pose proof (weight_le_1 T (now s1 + 2000) (Some (next_timer s1))
                  StatusTimeout I). lia.
  - rewrite W. pose proof (failed_budget T s). lia.
  - rewrite W.
    assert (F : forall s', (budget T (queue (init_finally s'))
                            <= budget T (queue s'))%nat)
      by (intros; apply finally_budget).
    destruct c, r; cbn [racing set_backend];
      try (destruct (racing s));
      try match goal with
          | |- context [init_finally ?x] => pose proof (F x)
          end; clear F; ops; lia.
  - rewrite W. destruct (racing s); [|lia].
    pose proof (finally_budget T
      (console Warn "[App] Status check failed or timed out:"
               (set_racing false s))) as H. ops. lia.
  - pose proof (check_budget e T FromPoll
      (set_queue (insert {| due := now s + 10000;
                            timer := Some (interval s);
                            act := PollTick |} (queue s)) s)) as H.
    ops. rewrite budget_insert in H.
    pose proof (weight_next_tick T d (Some (interval s)) h HT) as H2.
    rewrite Hnow in *. lia.
  - rewrite W. ops. pose proof (budget_filter T
      (fun t => negb (has_handle (interval s) t)) (queue s)). lia.
  - rewrite W.
    destruct (mounted s && _); [|lia].
    pose proof (check_budget e T FromRetry s). lia.
Qed.

Lemma step_budget (e : Env) (T : N) (s : State) (t : Task) (q : list Task) :
  queue s = t :: q -> due t <= T ->
  (budget T (queue (step e s)) < budget T (queue s))%nat.
Proof.
  intros Hq HT. unfold step. rewrite Hq.
  pose proof (exec_budget e T t (set_queue q (set_now (due t) s))
                eq_refl HT) as H.
  cbn [queue set_queue] in H. cbn [budget fold_right]. fold (budget T q). lia.
Qed.

(** With fuel for the whole budget the loop stops only when the head of
    the queue is due after [T]. *)
Lemma loop_drains (e : Env) (T : N) (fuel : nat) (s : State) :
  (budget T (queue s) <= fuel)%nat ->
  match queue (loop e T fuel s) with
  | [] => True
  | t :: _ => T < due t
  end.
Proof.
  revert s. induction fuel as [|fuel IH]; intros s Hb.
  - cbn [loop]. destruct (queue s) as [|t q] eqn:Hq; [exact I|].
    cbn [budget fold_right] in Hb. fold (budget T q) in Hb.
    assert (W : weight T t = O) by lia. unfold weight in W.
    destruct (T <? due t) eqn:E; [apply N.ltb_lt in E; exact E|].
    destruct (act t) as [|[]| | | | |]; discriminate.
  - cbn [loop]. destruct (queue s) as [|t q] eqn:Hq.
    + rewrite Hq. exact I.
    + destruct (due t <=? T) eqn:E.
      * apply N.leb_le in E. apply IH.
        pose proof (step_budget e T s t q Hq E) as H.
        rewrite Hq in H. lia.
      * rewrite Hq. apply N.leb_gt in E. exact E.
Qed.

Lemma loop_done (e : Env) (T : N) (k : nat) (s : State) :
  budget T (queue s) = O -> loop e T k s = s.
Proof.
  intros H0. destruct k as [|k]; cbn [loop]; [reflexivity|].
  destruct (queue s) as [|t q] eqn:Hq; [reflexivity|].
  destruct (due t <=? T) eqn:E; [|reflexivity].
  apply N.leb_le in E.
  pose proof (step_budget e T s t q Hq E) as H.
  rewrite Hq in H. lia.
Qed.

(** Fuel beyond the budget changes nothing. *)
Lemma loop_enough (e : Env) (T : N) (n m : nat) (s : State) :
  (budget T (queue s) <= n)%nat -> (budget T (queue s) <= m)%nat ->
  loop e T n s = loop e T m s.
Proof.
  revert m s. induction n as [|n IH]; intros m s Hn Hm.
  - rewrite !loop_done by lia. reflexivity.
  - destruct m as [|m]; [rewrite !loop_done by lia; reflexivity|].
    cbn [loop]. destruct (queue s) as [|t q] eqn:Hq; [reflexivity|].
    destruct (due t <=? T) eqn:E; [|reflexivity].
    apply N.leb_le in E.
    pose proof (step_budget e T s t q Hq E) as H. rewrite Hq in H.
    apply IH; lia.
Qed.

(** Anything the steps up to [T] preserve holds when the loop stops. *)
Lemma loop_invariant (e : Env) (T : N) (P : State -> Prop) :
  (forall s t q, P s -> queue s = t :: q -> due t <= T -> P (step e s)) ->
  forall fuel s, P s -> P (loop e T fuel s).
Proof.
  intros Hstep. induction fuel as [|fuel IH]; intros s Hs; cbn [loop]; auto.
  destruct (queue s) as [|t q] eqn:Hq; auto.
  destruct (due t <=? T) eqn:E; auto.
  apply N.leb_le in E. eauto.
Qed.

(** ** What is in the queue *)

Lemma base_emit (e : Env) (o : Obs) (s : State) :
  Base e s -> Base e (emit o s).
Proof. intros []; constructor; auto. Qed.

Lemma base_console (e : Env) (l : Level) (m : string) (s : State) :
  Base e s -> Base e (console l m s).
Proof. apply base_emit. Qed.

Lemma base_racing (e : Env) (b : bool) (s : State) :
  Base e s -> Base e (set_racing b s).
Proof. intros []; constructor; auto. Qed.

Lemma base_backend (e : Env) (b : BackendStatus) (s : State) :
  Base e s -> Base e (set_backend b s).
Proof. intros []; constructor; auto. Qed.

Lemma base_mounted (e : Env) (b : bool) (s : State) :
  Base e s -> Base e (set_mounted b s).
Proof. intros []; constructor; auto. Qed.

Lemma base_setter (e : Env) (b : bool) (s : State) :
  Base e s -> Base e (setIsInitializing b s).
Proof. intros []; constructor; auto. Qed.

Lemma base_clear (e : Env) (h : nat) (s : State) :
  Base e s -> Base e (clearTimer h s).
Proof.
  intros []; constructor; ops; auto using sorted_filter, Forall_filter.
Qed.

Lemma base_insert (e : Env) (t : Task) (s : State) :
  Base e s -> task_ok e t -> now s <= due t ->
  Base e (set_queue (insert t (queue s)) s).
Proof.
  intros [] Hok Hdue; constructor; ops; auto using sorted_insert;
    apply Forall_insert; auto.
Qed.

Lemma base_schedule (e : Env) (a : Action) (d : N) (s : State) :
  Base e s ->
  timing e {| due := now s + d; timer := None; act := a |} ->
  is_force a = false -> is_poll a = false ->
  Base e (schedule a d s).
Proof.
  intros Hb Ht Hf Hp. apply base_insert; auto; cbn [due]; try lia.
  repeat split; cbn; auto.
Qed.

Lemma base_finally (e : Env) (s : State) :
  Base e s -> Base e (init_finally s).
Proof.
  intros H. unfold init_finally, console.
  apply base_setter, base_clear, base_emit, H.
Qed.

Lemma base_failed (e : Env) (s : State) :
  Base e s -> Base e (init_failed s).
Proof. intros H. apply base_finally, base_emit, H. Qed.

Ltac base :=
  repeat first
    [ assumption | apply base_finally | apply base_failed
    | apply base_console | apply base_emit | apply base_racing
    | apply base_backend | apply base_setter | apply base_clear
    | apply base_mounted ].

Lemma base_check (e : Env) (c : Caller) (s : State) :
  Base e s ->
  (c = FromInit ->
   absent e = false /\ listeners e = LSettles (now s) Fulfilled) ->
  Base e (checkNexusStatus e c s).
Proof.
  intros Hb Hc. unfold checkNexusStatus. cbn zeta.
  change (now (emit (CallCheck c) s)) with (now s).
  destruct (query e c (now s)) eqn:Q.
  - apply base_emit, Hb.
  - apply base_schedule; auto using base_emit.
    destruct c; cbn; auto. destruct Hc as [Ha Hl]; auto.
    split; [exact Ha|]. exists (now s), delay. rewrite Q. auto.
  - apply base_schedule; auto using base_emit.
    destruct c; cbn; auto. destruct Hc as [Ha Hl]; auto.
    split; [exact Ha|]. exists (now s), delay. rewrite Q. auto.
Qed.

Lemma has_handle_ge3 (h : nat) (d : N) (a : Action) :
  (3 <= h)%nat ->
  has_handle 1 {| due := d; timer := Some h; act := a |} = false /\
  has_handle 2 {| due := d; timer := Some h; act := a |} = false.
Proof.
  intros Hh. unfold has_handle; cbn.
  destruct h as [|[|[|h]]]; try lia; auto.
Qed.

Lemma base_exec (e : Env) (t : Task) (s : State) :
  Base e s -> task_ok e t -> now s = due t ->
  Base e (exec e (act t) s).
Proof.
  intros Hb (_ & _ & Ht) Hnow. unfold timing in Ht.
  destruct (act t) as [|[|]|c st r| | | |]; cbn [exec].
  - apply base_setter, base_emit, Hb.
  - set (s0 := console Log "[App] Tauri listeners initialized" s).
    assert (H1 : Base e (checkNexusStatus e FromInit s0)).
    { apply base_check; [apply base_emit, Hb|].
      intros _. cbn. rewrite Hnow. exact Ht. }
    destruct Ht as [Ha Ht].
    assert (N1 : now (checkNexusStatus e FromInit s0) = now s).
    { unfold checkNexusStatus. cbn zeta.
      destruct (query e FromInit _); reflexivity. }
    revert H1 N1. generalize (checkNexusStatus e FromInit s0).
    intros s1 H1 N1. clear s0.
    unfold setTimer. apply base_racing.
    destruct H1. constructor; ops; auto using sorted_insert;
      try (apply Forall_insert; split; auto); cbn [due]; try lia.
    destruct (has_handle_ge3 (next_timer s1) (now s1 + 2000) StatusTimeout
                b_next0) as [E1 E2].
    repeat split; auto.
    exists (due t). split; auto. cbn [due]. lia.
  - apply base_failed, Hb.
  - destruct c, r; cbn [racing set_backend];
      try destruct (racing s); base.
  - destruct (racing s); base.
  - apply base_check; [|discriminate].
    apply base_insert; auto; cbn [due]; try lia.
    destruct Hb. rewrite b_interval0.
    repeat split; cbn [act due timing]; auto.
    destruct Ht as [k Hk]. exists (k + 1). lia.
  - apply base_mounted, base_clear, base_emit, Hb.
  - destruct (mounted s && _); auto.
    apply base_check; [auto|discriminate].
Qed.

Lemma base_step (e : Env) (s : State) (t : Task) (q : list Task) :
  Base e s -> queue s = t :: q -> Base e (step e s).
Proof.
  intros Hb Hq. unfold step. rewrite Hq.
  destruct Hb. rewrite Hq in *.
  inversion b_ok0; subst. destruct b_sorted0 as [Hhd Hs].
  apply base_exec; auto.
  constructor; ops; auto.
Qed.

(** ** When the flag flips *)

Lemma keeps_refl (q : list Task) : keeps q q.
Proof. intros x; auto. Qed.

Lemma keeps_insert (t : Task) (q q' : list Task) :
  keeps q q' -> keeps q (insert t q').
Proof. intros H x Hx Hh. apply In_insert. auto. Qed.

Lemma keeps_clear2 (q q' : list Task) :
  keeps q q' -> keeps q (filter (fun t => negb (has_handle 2 t)) q').
Proof.
  intros H x Hx Hh. apply filter_In. split; auto. rewrite Hh. reflexivity.
Qed.

Lemma queued_keeps (a : Action) (q q' : list Task) :
  keeps q q' -> queued a q -> queued a q'.
Proof. intros H (t & Ht & Ha & Hh). exists t. auto. Qed.

Lemma queued_tail (a : Action) (t : Task) (q : list Task) :
  act t <> a -> queued a (t :: q) -> queued a q.
Proof.
  intros Hne (x & [->|Hx] & Ha & Hh); [contradiction|]. exists x; auto.
Qed.

Lemma queued_new (x : Task) (q : list Task) :
  has_handle 2 x = false -> queued (act x) (insert x q).
Proof. intros H. exists x. split; [apply In_insert; auto|auto]. Qed.

Lemma check_keeps (e : Env) (c : Caller) (s : State) (q : list Task) :
  keeps q (queue s) -> keeps q (queue (checkNexusStatus e c s)).
Proof.
  intros H. unfold checkNexusStatus. cbn zeta.
  destruct (query e c _); ops; auto using keeps_insert.
Qed.

Lemma flips_cons (t : N) (o : Obs) (tr : list (N * Obs)) :
  flips ((t, o) :: tr) = if is_flip o then t :: flips tr else flips tr.
Proof. unfold flips. cbn. destruct (is_flip o); reflexivity. Qed.

Ltac flips_simpl :=
  rewrite ?flips_cons; cbn [is_flip negb Bool.eqb].

Lemma check_flags (e : Env) (c : Caller) (s : State) :
  isInitializing (checkNexusStatus e c s) = isInitializing s /\
  racing (checkNexusStatus e c s) = racing s /\
  flips (trace (checkNexusStatus e c s)) = flips (trace s) /\
  now (checkNexusStatus e c s) = now s /\
  backend (checkNexusStatus e c s) = backend s /\
  mounted (checkNexusStatus e c s) = mounted s.
Proof.
  unfold checkNexusStatus. cbn zeta.
  destruct (query e c _); repeat split; reflexivity.
Qed.

(** Once the flag is down every setter call passes [false] again, so the
    flag stays down and no further flip is recorded. *)
Lemma exec_ready_stays (e : Env) (a : Action) (s : State) :
  isInitializing s = false ->
  isInitializing (exec e a s) = false /\
  flips (trace (exec e a s)) = flips (trace s).
Proof.
  intros H.
  destruct a as [|[|]|c st r| | | |]; cbn [exec].
  - ops. rewrite H. auto.
  - destruct (check_flags e FromInit
                (console Log "[App] Tauri listeners initialized" s))
      as (E1 & _ & E2 & _).
    unfold setTimer. ops. rewrite E1, E2. auto.
  - ops. rewrite H. auto.
  - destruct c, r; cbn [racing set_backend]; try destruct (racing s);
      ops; rewrite ?H; auto.
  - destruct (racing s); ops; rewrite ?H; auto.
  - destruct (check_flags e FromPoll
      (set_queue (insert {| due := now s + 10000;
                            timer := Some (interval s);
                            act := PollTick |} (queue s)) s))
      as (E1 & _ & E2 & _).
    rewrite E1, E2. auto.
  - ops. auto.
  - destruct (mounted s && _); auto.
    destruct (check_flags e FromRetry s) as (E1 & _ & E2 & _).
    rewrite E1, E2. auto.
Qed.

(** No task moves the clock: only the event loop does. *)
Lemma exec_now (e : Env) (a : Action) (s : State) :
  now (exec e a s) = now s.
Proof.
  destruct a as [|[|]|c st r| | | |]; cbn [exec]; try reflexivity.
  - destruct (check_flags e FromInit
                (console Log "[App] Tauri listeners initialized" s))
      as (_ & _ & _ & E & _).
    unfold setTimer. ops. exact E.
  - destruct c, r; cbn [racing set_backend]; try destruct (racing s);
      reflexivity.
  - destruct (racing s); reflexivity.
  - set (s1 := set_queue _ s).
    destruct (check_flags e FromPoll s1) as (_ & _ & _ & E & _). exact E.
  - destruct (mounted s && _); [|reflexivity].
    destruct (check_flags e FromRetry s) as (_ & _ & _ & E & _). exact E.
Qed.

Lemma awaiting_weaken (e : Env) (r : bool) (q q' : list Task) :
  (forall a, relevant r a -> queued a q -> queued a q') ->
  awaiting e r q -> awaiting e r q'.
Proof.
  intros H. unfold awaiting.
  destruct (listeners e) as [|L [|]|]; auto.
  - intros [[Hr Hq]|(Hr & Hq & Hs)]; [left|right].
    + split; [exact Hr|]. apply H; [exact Hr|exact Hq].
    + split; [exact Hr|]. split; [apply H; [exact Hr|exact Hq]|].
      intros Hd. destruct (Hs Hd) as (st & x & Hx).
      exists st, x. apply H; [exact Hr|exact Hx].
  - apply H. exact I.
Qed.

Lemma awaiting_next (e : Env) (r : bool) (t : Task) (q q' : list Task) :
  ~ relevant r (act t) -> keeps q q' ->
  awaiting e r (t :: q) -> awaiting e r q'.
Proof.
  intros Hn Hk. apply awaiting_weaken. intros a Ha Hq.
  apply (queued_keeps a q q' Hk). apply (queued_tail a t q); auto.
  intros E. apply Hn. rewrite E. exact Ha.
Qed.

Lemma queued_timing (e : Env) (a : Action) (t : Task) (q : list Task) :
  sorted (t :: q) -> Forall (task_ok e) (t :: q) -> queued a (t :: q) ->
  exists w, act w = a /\ timing e w /\ due t <= due w.
Proof.
  intros Hs Hok (w & Hw & Ha & _). exists w. repeat split; auto.
  - rewrite Forall_forall in Hok. apply Hok; auto.
  - eapply sorted_head; eauto.
Qed.

Lemma ready_time_le (e : Env) : ready_time e <= 3000.
Proof.
  unfold ready_time. destruct (absent e); [lia|].
  destruct (listeners e) as [|L [|]|]; try lia.
  destruct (query_delay _); lia.
Qed.

(** While the loading screen is up, nothing has run later than the moment
    computed by [ready_time]. *)
Lemma awaiting_bound (e : Env) (r : bool) (t : Task) (q : list Task) :
  sorted (t :: q) -> Forall (task_ok e) (t :: q) -> absent e = false ->
  queued ForceShowUI (t :: q) -> awaiting e r (t :: q) ->
  due t <= ready_time e.
Proof.
  intros Hs Hok Habs Hf Ha.
  destruct (queued_timing e _ t q Hs Hok Hf) as (w & Hw & Tw & Dw).
  unfold timing in Tw. rewrite Hw in Tw.
  unfold ready_time. rewrite Habs. unfold awaiting in Ha.
  destruct (listeners e) as [|L [|]|] eqn:EL; try lia; try contradiction.
  - destruct Ha as [[_ Hq]|(_ & Hq & Hst)].
    + destruct (queued_timing e _ t q Hs Hok Hq) as (x & Hx & Tx & Dx).
      unfold timing in Tx. rewrite Hx, EL in Tx. destruct Tx as [_ Tx].
      injection Tx as Tx. destruct (query_delay _); lia.
    + destruct (queued_timing e _ t q Hs Hok Hq) as (x & Hx & Tx & Dx).
      unfold timing in Tx. rewrite Hx, EL in Tx.
      destruct Tx as (_ & L' & E' & Dx'). injection E' as <-.
      destruct (query_delay (query e FromInit L)) as [d|] eqn:Q; [|lia].
      destruct Hst as (st & y & Hy); [discriminate|].
      destruct (queued_timing e _ t q Hs Hok Hy) as (z & Hz & Tz & Dz).
      unfold timing in Tz. rewrite Hz, EL in Tz.
      destruct Tz as (_ & L' & d' & E' & Q' & Dz'). injection E' as <-.
      rewrite Q in Q'. injection Q' as <-. lia.
  - destruct (queued_timing e _ t q Hs Hok Ha) as (x & Hx & Tx & Dx).
    unfold timing in Tx. rewrite Hx, EL in Tx. destruct Tx as [_ Tx].
    injection Tx as Tx. lia.
Qed.

(** None of them is due before the moment computed by [ready_time]. *)
Lemma flipping_bound (e : Env) (r : bool) (t : Task) :
  absent e = false -> timing e t -> flipping r (act t) ->
  ready_time e <= due t.
Proof.
  intros Habs Ht Hf. unfold timing in Ht. unfold ready_time. rewrite Habs.
  destruct (act t) as [|[|]|[| |] st x| | | |]; cbn in Hf; try contradiction.
  - pose proof (ready_time_le e) as H. unfold ready_time in H.
    rewrite Habs in H. lia.
  - destruct Ht as [_ ->]. lia.
  - destruct Ht as (_ & L & d & -> & -> & ->). lia.
  - destruct Ht as (_ & L & -> & ->). destruct (query_delay _); lia.
Qed.

Lemma flipping_exec (e : Env) (a : Action) (s : State) :
  isInitializing s = true -> flips (trace s) = [] ->
  flipping (racing s) a ->
  isInitializing (exec e a s) = false /\
  flips (trace (exec e a s)) = [now s].
Proof.
  intros HI HF Hf.
  destruct a as [|[|]|[| |] st x| | | |]; cbn in Hf; try contradiction;
    cbn [exec]; cbn [racing set_backend]; rewrite ?Hf;
    try destruct x; ops; rewrite HI; flips_simpl; rewrite HF; auto.
Qed.

(** Every other task leaves the flag, the race and the awaited tasks as
    they were, except the listeners' success, which starts the race. *)
Lemma quiet_exec (e : Env) (a : Action) (s : State) :
  ~ flipping (racing s) a -> a <> ListenersSettled Fulfilled ->
  interval s = 2%nat ->
  isInitializing (exec e a s) = isInitializing s /\
  racing (exec e a s) = racing s /\
  flips (trace (exec e a s)) = flips (trace s) /\
  keeps (queue s) (queue (exec e a s)).
Proof.
  intros Hn Hne Hi.
  destruct a as [|[|]|[| |] st x| | | |]; cbn in Hn; try tauto;
    cbn [exec]; cbn [racing set_backend].
  - destruct (racing s) eqn:ER; [tauto|].
    destruct x; ops; repeat split; auto using keeps_refl.
  - destruct x; ops; repeat split; auto using keeps_refl.
  - destruct x; ops; repeat split; auto using keeps_refl.
  - destruct (racing s) eqn:ER; [tauto|].
    ops; repeat split; auto using keeps_refl.
  - set (s1 := set_queue _ s).
    destruct (check_flags e FromPoll s1) as (E1 & E2 & E3 & _).
    rewrite E1, E2, E3. repeat split; auto.
    apply check_keeps. unfold s1. ops. apply keeps_insert, keeps_refl.
  - ops. rewrite Hi. repeat split; auto. apply keeps_clear2, keeps_refl.
  - destruct (mounted s && _); [|repeat split; auto using keeps_refl].
    destruct (check_flags e FromRetry s) as (E1 & E2 & E3 & _).
    rewrite E1, E2, E3. repeat split; auto.
    apply check_keeps, keeps_refl.
Qed.

Lemma flipping_relevant (r : bool) (a : Action) :
  ~ flipping r a -> a <> ListenersSettled Fulfilled -> ~ relevant r a.
Proof.
  destruct a as [|[|]|[| |] st x| | | |]; cbn; try tauto.
Qed.

(** The listeners' success issues the first status check and starts the
    2000 ms timeout. *)
Lemma race_exec (e : Env) (s : State) :
  (3 <= next_timer s)%nat ->
  let s' := exec e (ListenersSettled Fulfilled) s in
  isInitializing s' = isInitializing s /\
  flips (trace s') = flips (trace s) /\
  racing s' = true /\
  keeps (queue s) (queue s') /\
  queued StatusTimeout (queue s') /\
  (query_delay (query e FromInit (now s)) <> None ->
   exists st x, queued (StatusSettled FromInit st x) (queue s')).
Proof.
  intros Hn. cbn [exec].
  set (s0 := console Log "[App] Tauri listeners initialized" s).
  set (s1 := checkNexusStatus e FromInit s0).
  destruct (check_flags e FromInit s0) as (E1 & _ & E2 & E3 & _).
  fold s1 in E1, E2, E3.
  assert (N1 : next_timer s1 = next_timer s).
  { unfold s1, checkNexusStatus. cbn zeta.
    destruct (query e FromInit _); reflexivity. }
  unfold setTimer. cbn zeta.
  cbn [isInitializing trace racing queue set_racing set_next_timer set_queue].
  set (tt := {| due := now s1 + 2000; timer := Some (next_timer s1);
                act := StatusTimeout |}).
  assert (Htt : has_handle 2 tt = false).
  { unfold tt. rewrite N1. apply has_handle_ge3, Hn. }
  repeat split; auto.
  - apply keeps_insert. apply check_keeps. apply keeps_refl.
  - apply (queued_new tt). exact Htt.
  - intros Hq.
    assert (exists st x, queued (StatusSettled FromInit st x) (queue s1))
      as (st & x & Hx).
    { unfold s1, checkNexusStatus. cbn zeta.
      change (now (emit (CallCheck FromInit) s0)) with (now s).
      destruct (query e FromInit (now s)) as [|d|d er rj];
        [contradiction Hq; reflexivity| |]; eexists; eexists.
      - apply (queued_new {| due := now s + d; timer := None;
                             act := StatusSettled FromInit _ _ |}).
        reflexivity.
      - apply (queued_new {| due := now s + d; timer := None;
                             act := StatusSettled FromInit _ _ |}).
        reflexivity. }
    exists st, x. eapply queued_keeps; [|exact Hx].
    apply keeps_insert, keeps_refl.
Qed.

Lemma flipping_dec (r : bool) (a : Action) : flipping r a \/ ~ flipping r a.
Proof.
  destruct a as [|[|]|[| |] st x| | | |]; cbn; auto;
    destruct r; auto; right; discriminate.
Qed.

Lemma race_dec (a : Action) :
  a = ListenersSettled Fulfilled \/ a <> ListenersSettled Fulfilled.
Proof.
  destruct a as [|[|]|c st x| | | |]; auto; right; discriminate.
Qed.

(** One step of the event loop keeps the readiness invariant. *)
Lemma ready_step (e : Env) (s : State) (t : Task) (q : list Task) :
  Base e s -> Ready_inv e s -> queue s = t :: q ->
  Ready_inv e (step e s).
Proof.
  intros Hb Hr Hq. unfold step. rewrite Hq.
  set (s1 := set_queue q (set_now (due t) s)).
  destruct (isInitializing s) eqn:EI.
  2:{ destruct (exec_ready_stays e (act t) s1 EI) as [E1 E2].
      constructor; intros H; [congruence|].
      rewrite E2, exec_now. destruct (r_ready e s Hr EI) as [H1 H2].
      split; [exact H1|]. cbn [now s1 set_queue set_now].
      pose proof (b_due e s Hb) as Hd. rewrite Hq in Hd.
      inversion Hd; subst. lia. }
  destruct (r_init e s Hr EI) as (Habs & Hfl & Hforce & Haw).
  rewrite Hq in Hforce, Haw.
  pose proof (b_sorted e s Hb) as Hs. pose proof (b_ok e s Hb) as Hok.
  rewrite Hq in Hs, Hok.
  pose proof (awaiting_bound e _ t q Hs Hok Habs Hforce Haw) as Hle.
  assert (Ht : timing e t) by (inversion Hok as [|? ? [_ [_ H]] _]; exact H).
  destruct (flipping_dec (racing s) (act t)) as [Hf|Hf].
  - (* the task takes the loading screen down *)
    destruct (flipping_exec e (act t) s1 EI Hfl Hf) as [F1 F2].
    constructor; intros H; [congruence|].
    rewrite F2, exec_now. cbn [now s1 set_queue set_now].
    pose proof (flipping_bound e (racing s) t Habs Ht Hf).
    split; [f_equal|]; lia.
  - destruct (race_dec (act t)) as [EA|EA].
    + (* the listeners settled: the race starts *)
      destruct (race_exec e s1 (b_next e s Hb))
        as (R1 & R2 & R3 & R4 & R5 & R6).
      rewrite EA.
      change (isInitializing s1) with (isInitializing s) in R1.
      constructor; intros H; [|congruence].
      split; [exact Habs|]. split; [rewrite R2; exact Hfl|]. split.
      * apply (queued_keeps _ q _ R4). apply (queued_tail _ t); auto.
        rewrite EA. discriminate.
      * unfold timing in Ht. rewrite EA in Ht. destruct Ht as [_ Ht].
        unfold awaiting. rewrite Ht. right. rewrite R3.
        split; [reflexivity|]. split; [exact R5|exact R6].
    + (* nothing the loading screen depends on changes *)
      destruct (quiet_exec e (act t) s1 Hf EA (b_interval e s Hb))
        as (Q1 & Q2 & Q3 & Q4).
      change (isInitializing s1) with (isInitializing s) in Q1.
      constructor; intros H; [|congruence].
      split; [exact Habs|]. split; [rewrite Q3; exact Hfl|]. split.
      * apply (queued_keeps _ q _ Q4). apply (queued_tail _ t); auto.
        intros E. apply Hf. rewrite E. exact I.
      * rewrite Q2.
        apply (awaiting_next e _ t q _ (flipping_relevant _ _ Hf EA) Q4 Haw).
Qed.

(** ** The state right after the effect ran *)

Lemma external_sorted (e : Env) : sorted (external e).
Proof.
  unfold external. induction (clicks e) as [|c l IH]; cbn [fold_right].
  - destruct (teardown e); cbn; auto.
  - apply sorted_insert, IH.
Qed.

Lemma external_ok (e : Env) : Forall (task_ok e) (external e).
Proof.
  unfold external. induction (clicks e) as [|c l IH]; cbn [fold_right].
  - destruct (teardown e) as [td|] eqn:E; repeat constructor. exact E.
  - apply Forall_insert. split; [repeat constructor|exact IH].
Qed.

Lemma Forall_due0 (q : list Task) : Forall (fun t => 0 <= due t) q.
Proof. apply Forall_forall. intros; lia. Qed.

(** The queue the effect leaves behind. *)
Lemma started_queue (e : Env) :
  queue (started e) =
  insert first_tick
    (if absent e then clear1 (clear1 (insert deadline_task (external e)))
     else match listeners e with
          | LThrows => clear1 (insert deadline_task (external e))
          | LSettles d r =>
              insert (listeners_task d r) (insert deadline_task (external e))
          | LPending => insert deadline_task (external e)
          end).
Proof.
  unfold started, useEffect, init, absent.
  destruct (window_defined e && negb (tauri e)); [reflexivity|].
  destruct (listeners e); reflexivity.
Qed.

Lemma started_fields (e : Env) :
  now (started e) = 0 /\ forceShowUI (started e) = 1%nat /\
  interval (started e) = 2%nat /\ next_timer (started e) = 3%nat /\
  racing (started e) = false /\ backend (started e) = Unknown /\
  mounted (started e) = true.
Proof.
  unfold started, useEffect, init.
  destruct (window_defined e && negb (tauri e));
    [repeat split; reflexivity|].
  destruct (listeners e); repeat split; reflexivity.
Qed.

Lemma started_flag (e : Env) :
  if absent e then
    isInitializing (started e) = false /\ flips (trace (started e)) = [0]
  else match listeners e with
       | LThrows =>
           isInitializing (started e) = false /\
           flips (trace (started e)) = [0]
       | _ =>
           isInitializing (started e) = true /\
           flips (trace (started e)) = []
       end.
Proof.
  unfold started, useEffect, init, absent.
  destruct (window_defined e && negb (tauri e)); [split; reflexivity|].
  destruct (listeners e); split; reflexivity.
Qed.

Lemma started_base (e : Env) : Base e (started e).
Proof.
  destruct (started_fields e) as (E1 & E2 & E3 & E4 & _).
  constructor; rewrite ?started_queue, ?E1; auto; try (rewrite E4; lia).
  - apply sorted_insert.
    destruct (absent e); [|destruct (listeners e)]; unfold clear1;
      repeat first [apply sorted_insert | apply sorted_filter];
      apply external_sorted.
  - apply Forall_due0.
  - assert (D : task_ok e deadline_task)
      by (repeat split; reflexivity).
    apply Forall_insert. split.
    { repeat split; try reflexivity. exists 0. reflexivity. }
    destruct (absent e) eqn:EA; [|destruct (listeners e) eqn:EL];
      unfold clear1;
      repeat first [apply Forall_filter | apply Forall_insert; split];
      auto using external_ok.
    repeat split; try reflexivity; assumption.
Qed.

Lemma started_ready (e : Env) : Ready_inv e (started e).
Proof.
  pose proof (started_flag e) as HF.
  destruct (started_fields e) as (E1 & _ & _ & _ & E5 & _).
  assert (Q : forall q, queued ForceShowUI
                (insert first_tick (insert deadline_task q))).
  { intros q. exists deadline_task. split; [|split; reflexivity].
    apply In_insert. right. apply In_insert. left. reflexivity. }
  destruct (absent e) eqn:EA.
  { destruct HF as [H1 H2].
    constructor; intros H; [congruence|]. rewrite H2, E1.
    unfold ready_time. rewrite EA. split; [reflexivity|lia]. }
  constructor; intros H.
  - rewrite started_queue, EA, E5.
    destruct (listeners e) as [|d r|] eqn:EL; destruct HF as [H1 H2];
      try congruence; (split; [reflexivity|]); (split; [exact H2|]).
    + split.
      * exists deadline_task. split; [|split; reflexivity].
        apply In_insert. right. apply In_insert. right.
        apply In_insert. left. reflexivity.
      * unfold awaiting. rewrite EL.
        assert (queued (ListenersSettled r)
                  (insert first_tick
                     (insert (listeners_task d r)
                        (insert deadline_task (external e))))).
        { exists (listeners_task d r). split; [|split; reflexivity].
          apply In_insert. right. apply In_insert. left. reflexivity. }
        destruct r; auto.
    + split; [apply Q|]. unfold awaiting. rewrite EL. exact I.
  - destruct (listeners e) as [|d r|] eqn:EL; destruct HF as [H1 H2];
      try congruence.
    rewrite H2, E1. unfold ready_time. rewrite EA, EL.
    split; [reflexivity|lia].
Qed.

(** ** Whole runs *)

(** An invariant of the steps up to [T] holds of [run e T]; its proof may
    use what is already known of every state of a run. *)
Lemma run_invariant (e : Env) (T : N) (P : State -> Prop) :
  P (started e) ->
  (forall s t q,
      Base e s -> Ready_inv e s -> now s <= T -> P s ->
      queue s = t :: q -> due t <= T -> P (step e s)) ->
  P (run e T) /\ Base e (run e T) /\ Ready_inv e (run e T) /\
  now (run e T) <= T.
Proof.
  intros H0 Hstep.
  pose (I := fun s => P s /\ Base e s /\ Ready_inv e s /\ now s <= T).
  change (I (run e T)). unfold run. apply loop_invariant.
  - intros s t q (HP & HB & HR & HN) Hq HT. unfold I.
    split; [eauto|]. split; [eapply base_step; eauto|].
    split; [eapply ready_step; eauto|].
    unfold step. rewrite Hq, exec_now. exact HT.
  - split; [exact H0|]. split; [apply started_base|].
    split; [apply started_ready|].
    destruct (started_fields e) as (-> & _). lia.
Qed.

Lemma run_facts (e : Env) (T : N) :
  Base e (run e T) /\ Ready_inv e (run e T) /\ now (run e T) <= T.
Proof.
  destruct (run_invariant e T (fun _ => True)) as (_ & H); auto.
Qed.

(** The fuel of [run] is enough: nothing due by [T] is left in the queue. *)
Lemma run_quiescent (e : Env) (T : N) : quiescent T (run e T).
Proof.
  destruct (run_facts e T) as (HB & _).
  pose proof (loop_drains e T (budget T (queue (started e))) (started e)
                (le_n _)) as H.
  fold (run e T) in H. unfold quiescent.
  pose proof (b_sorted e _ HB) as Hs.
  destruct (queue (run e T)) as [|t q]; [constructor|].
  constructor; [exact H|].
  destruct Hs as [Hs _]. eapply Forall_impl; [|exact Hs].
  cbn. intros; lia.
Qed.

(** ** What a task may add to the trace *)

Lemma grows_Forall (P Q : N * Obs -> Prop) (tr tr' : list (N * Obs)) :
  grows P tr tr' -> (forall x, P x -> Q x) -> Forall Q tr -> Forall Q tr'.
Proof. induction 1; auto. Qed.

Lemma grows_In (P : N * Obs -> Prop) (tr tr' : list (N * Obs)) x :
  grows P tr tr' -> In x tr -> In x tr'.
Proof. induction 1; cbn; auto. Qed.

Lemma check_grows (e : Env) (c : Caller) (s : State) :
  trace (checkNexusStatus e c s) = (now s, CallCheck c) :: trace s.
Proof.
  unfold checkNexusStatus. cbn zeta. destruct (query e c _); reflexivity.
Qed.

Ltac grow :=
  repeat (apply grows_more; [split; cbn; eauto|]); try apply grows_same.

Lemma exec_grows (e : Env) (a : Action) (s : State) :
  grows (written a (now s)) (trace s) (trace (exec e a s)).
Proof.
  destruct a as [|[|]|c st r| | | |]; cbn [exec].
  - ops. grow.
  - unfold setTimer. ops. rewrite check_grows. ops. grow.
  - ops. grow.
  - destruct c, r; cbn [racing set_backend]; try destruct (racing s);
      ops; grow.
  - destruct (racing s); ops; grow.
  - rewrite check_grows. ops. grow.
  - ops. grow.
  - destruct (mounted s && _); [rewrite check_grows|]; grow.
Qed.

Lemma step_grows (e : Env) (s : State) (t : Task) (q : list Task) :
  queue s = t :: q ->
  grows (written (act t) (due t)) (trace s) (trace (step e s)).
Proof.
  intros Hq. unfold step. rewrite Hq.
  apply (exec_grows e (act t) (set_queue q (set_now (due t) s))).
Qed.

Lemma checks_nil (c : Caller) (tr : list (N * Obs)) :
  checks c tr = [] <-> Forall (fun x => is_check c (snd x) = false) tr.
Proof.
  unfold checks. induction tr as [|x tr IH]; cbn.
  - split; auto.
  - destruct (is_check c (snd x)) eqn:E; cbn.
    + split; [discriminate|]. intros H. inversion H; congruence.
    + rewrite IH. split; intros H; [constructor; auto|inversion H; auto].
Qed.

Lemma checks_In (c : Caller) (tr : list (N * Obs)) (t : N) :
  In t (checks c tr) <-> In (t, CallCheck c) tr.
Proof.
  unfold checks. rewrite in_map_iff. split.
  - intros ([t' o] & <- & H). apply filter_In in H as [H1 H2].
    cbn in *. destruct o; try discriminate.
    destruct c0, c; try discriminate; exact H1.
  - intros H. exists (t, CallCheck c). split; [reflexivity|].
    apply filter_In. split; [exact H|]. destruct c; reflexivity.
Qed.

Lemma flips_In (tr : list (N * Obs)) (t : N) :
  In t (flips tr) <->
  exists old new, In (t, SetIsInitializing old new) tr /\ old <> new.
Proof.
  unfold flips. rewrite in_map_iff. split.
  - intros ([t' o] & <- & H). apply filter_In in H as [H1 H2].
    cbn in *. destruct o; try discriminate.
    exists old, new. split; [exact H1|].
    destruct old, new; cbn in H2; congruence.
  - intros (old & new & H & Hne).
    exists (t, SetIsInitializing old new). split; [reflexivity|].
    apply filter_In. split; [exact H|].
    destruct old, new; cbn; congruence.
Qed.

(** ** The readiness flag over a whole run *)

(** The loading screen is up exactly until [ready_time e], and the flag
    changes value at that moment and at no other. *)
Lemma run_flag (e : Env) (T : N) :
  isInitializing (run e T) = (T <? ready_time e) /\
  flips (trace (run e T)) =
    (if T <? ready_time e then [] else [ready_time e]).
Proof.
  destruct (run_facts e T) as (HB & HR & HN).
  pose proof (run_quiescent e T) as HQ. unfold quiescent in HQ.
  destruct (isInitializing (run e T)) eqn:EI.
  - destruct (r_init e _ HR EI) as (Habs & Hfl & Hforce & Haw).
    pose proof (b_sorted e _ HB) as Hs. pose proof (b_ok e _ HB) as Hok.
    destruct (queue (run e T)) as [|t q].
    { destruct Hforce as (x & [] & _). }
    pose proof (awaiting_bound e _ t q Hs Hok Habs Hforce Haw) as Hle.
    inversion HQ; subst.
    assert (E : (T <? ready_time e) = true) by (apply N.ltb_lt; lia).
    rewrite E. auto.
  - destruct (r_ready e _ HR EI) as [Hfl Hle].
    assert (E : (T <? ready_time e) = false) by (apply N.ltb_ge; lia).
    rewrite E. auto.
Qed.

(** The trace the effect leaves behind. *)
Lemma started_trace (e : Env) :
  trace (started e) =
  ((if absent e then
     [ (0, SetIsInitializing false false);
       (0, ClearTimer 1%nat);
       (0, Console Log "[App] Initialization complete, showing UI");
       (0, ClearTimer 1%nat);
       (0, SetIsInitializing true false);
       (0, Console Err "[App] Tauri runtime not available!") ]
   else
     match listeners e with
     | LThrows =>
         [ (0, SetIsInitializing true false);
           (0, ClearTimer 1%nat);
           (0, Console Log "[App] Initialization complete, showing UI");
           (0, Console Err "[App] Failed to initialize:") ]
     | _ => []
     end
     ++ [ (0, CallListeners);
          (0, Console Log "[App] Tauri runtime detected") ])
  ++ [ (0, Console Log "[App] Starting initialization...");
       (0, Console Log "[App] useEffect triggered") ])%list.
Proof.
  unfold started, useEffect, init, absent.
  destruct (window_defined e && negb (tauri e)); [reflexivity|].
  destruct (listeners e); reflexivity.
Qed.

Lemma started_trace_ok (e : Env) : Forall setter_false (trace (started e)).
Proof.
  rewrite started_trace.
  destruct (absent e); [|destruct (listeners e)]; repeat constructor.
Qed.

Lemma run_setter_false (e : Env) (T : N) :
  Forall setter_false (trace (run e T)).
Proof.
  apply (run_invariant e T (fun s => Forall setter_false (trace s))).
  - apply started_trace_ok.
  - intros s t q _ _ _ H Hq _.
    apply (grows_Forall _ _ _ _ (step_grows e s t q Hq)); [|exact H].
    intros [t' o] [_ Ho]. unfold setter_false. cbn in *.
    destruct o; auto.
Qed.

(** ** The banner *)

Lemma showConnectionWarning_iff (status : string) :
  showConnectionWarning status = true <->
  status = "disconnected"%string \/ status = "error"%string.
Proof.
  unfold showConnectionWarning.
  rewrite orb_true_iff, !String.eqb_eq. reflexivity.
Qed.

Lemma shows_banner (status : string) :
  shows WarningBanner (render false status) = showConnectionWarning status.
Proof.
  unfold render. destruct (showConnectionWarning status); reflexivity.
Qed.

(** ** What a task may add to the queue and do to the status *)

Lemma check_queue (e : Env) (c : Caller) (s : State) (x : Task) :
  In x (queue (checkNexusStatus e c s)) ->
  In x (queue s) \/ exists st r, act x = StatusSettled c st r.
Proof.
  unfold checkNexusStatus. cbn zeta.
  destruct (query e c _); ops; auto;
    (intros H; apply In_insert in H as [->|H];
     [right; eexists; eexists; reflexivity|left; exact H]).
Qed.

Lemma exec_queue (e : Env) (a : Action) (s : State) (x : Task) :
  In x (queue (exec e a s)) -> In x (queue s) \/ spawned a x.
Proof.
  unfold spawned.
  destruct a as [|[|]|c st r| | | |]; cbn [exec].
  - ops. auto.
  - unfold setTimer. ops. intros H.
    apply In_insert in H as [->|H]; [right; reflexivity|].
    apply check_queue in H as [H|(st & r & ->)]; auto.
  - ops. intros H. apply filter_In in H as [H _]. auto.
  - destruct c, r; cbn [racing set_backend]; try destruct (racing s);
      ops; auto; intros H; apply filter_In in H as [H _]; auto.
  - destruct (racing s); ops; auto.
    intros H; apply filter_In in H as [H _]; auto.
  - intros H. apply check_queue in H as [H|(st & r & ->)]; auto.
    ops. apply In_insert in H as [->|H]; auto.
    right. reflexivity.
  - ops. intros H. apply filter_In in H as [H _]. auto.
  - destruct (mounted s && _); auto.
    intros H. apply check_queue in H as [H|(st & r & ->)]; auto.
Qed.

Lemma step_queue (e : Env) (s : State) (t : Task) (q : list Task) x :
  queue s = t :: q ->
  In x (queue (step e s)) -> In x q \/ spawned (act t) x.
Proof.
  intros Hq. unfold step. rewrite Hq.
  apply (exec_queue e (act t) (set_queue q (set_now (due t) s))).
Qed.

Lemma exec_backend (e : Env) (a : Action) (s : State) :
  backend (exec e a s) =
  match a with
  | StatusSettled _ st _ => st
  | _ => backend s
  end.
Proof.
  destruct a as [|[|]|c st r| | | |]; cbn [exec]; try reflexivity.
  - destruct (check_flags e FromInit
                (console Log "[App] Tauri listeners initialized" s))
      as (_ & _ & _ & _ & E & _).
    unfold setTimer. ops. exact E.
  - destruct c, r; cbn [racing set_backend]; try destruct (racing s);
      reflexivity.
  - destruct (racing s); reflexivity.
  - set (s1 := set_queue _ s).
    destruct (check_flags e FromPoll s1) as (_ & _ & _ & _ & E & _).
    exact E.
  - destruct (mounted s && _); [|reflexivity].
    destruct (check_flags e FromRetry s) as (_ & _ & _ & _ & E & _).
    exact E.
Qed.

(** With the status at Unknown there is no banner, hence no Retry button:
    a press does nothing. *)
Lemma click_without_banner (e : Env) (s : State) :
  backend s = Unknown -> exec e RetryClick s = s.
Proof.
  intros H. cbn [exec]. rewrite H.
  destruct (isInitializing s); cbn; rewrite andb_false_r; reflexivity.
Qed.

(** ** Before the first status result *)

Lemma started_untouched (e : Env) : Untouched (started e).
Proof.
  constructor.
  - apply started_fields.
  - rewrite started_trace.
    destruct (absent e); [|destruct (listeners e)];
      repeat constructor.
  - rewrite started_queue. apply Forall_insert. split; [exact I|].
    assert (X : Forall from_init_only (external e)).
    { unfold external. induction (clicks e) as [|c l IH]; cbn [fold_right].
      - destruct (teardown e); repeat constructor.
      - apply Forall_insert. split; [exact I|exact IH]. }
    destruct (absent e); [|destruct (listeners e)]; unfold clear1;
      repeat first [apply Forall_filter | apply Forall_insert; split];
      auto; exact I.
Qed.

Lemma untouched_step (e : Env) (T : N) (s : State) (t : Task) (q : list Task) :
  early e T -> Base e s -> Untouched s ->
  queue s = t :: q -> due t <= T -> Untouched (step e s).
Proof.
  intros [HT He] Hb [Ub Ut Uq] Hq Hdue.
  pose proof (b_ok e s Hb) as Hok. rewrite Hq in Hok, Uq.
  inversion Hok as [|? ? (_ & _ & Ht) _]; subst.
  inversion Uq as [|? ? Ht0 Uq']; subst.
  unfold timing in Ht. unfold from_init_only in Ht0.
  assert (Hact : match act t with
                 | StatusSettled _ _ _ | PollTick => False
                 | _ => True
                 end).
  { destruct (act t) as [|r|[| |] st r| | | |]; auto.
    - destruct Ht as (Ha & L & d & HL & HQ & Hd).
      specialize (He Ha L d HL HQ). lia.
    - destruct Ht as [k Hk]. lia. }
  destruct (act t) as [|r|c st r| | | |] eqn:EA; try contradiction.
  all: try (constructor;
    [ unfold step; rewrite Hq, exec_backend, EA; exact Ub
    | apply (grows_Forall _ _ _ _ (step_grows e s t q Hq)); [|exact Ut];
      intros [t' o] [_ Ho]; rewrite EA in Ho; split; cbn in *;
      destruct o as [| | | |[| |]| |]; try reflexivity; discriminate
    | apply Forall_forall; intros x Hx;
      apply (step_queue e s t q x Hq) in Hx as [Hx|Hx];
      [ rewrite Forall_forall in Uq'; auto
      | unfold spawned in Hx; rewrite EA in Hx; unfold from_init_only;
        destruct (act x) as [|?|[| |] ? ?| | | |]; auto; discriminate ] ]).
  (* a press on Retry *)
  unfold step. rewrite Hq, EA, click_without_banner by exact Ub.
  constructor; auto.
Qed.

Lemma run_untouched (e : Env) (T : N) :
  early e T -> Untouched (run e T).
Proof.
  intros He. apply (run_invariant e T Untouched).
  - apply started_untouched.
  - intros s t q Hb _ _ Hu Hq Hd. eapply untouched_step; eauto.
Qed.

(** ** Runs in which [init] never gets to the status check *)

Lemma started_no_check (e : Env) (c : Caller) :
  checks c (trace (started e)) = [].
Proof.
  rewrite started_trace.
  destruct (absent e); [|destruct (listeners e)]; destruct c; reflexivity.
Qed.

Lemma run_no_init_check (e : Env) (T : N) :
  skips_check e -> checks FromInit (trace (run e T)) = [].
Proof.
  intros Hs. apply checks_nil.
  apply (run_invariant e T
           (fun s => Forall (fun x => is_check FromInit (snd x) = false)
                            (trace s))).
  - apply checks_nil, started_no_check.
  - intros s t q Hb _ _ H Hq _.
    apply (grows_Forall _ _ _ _ (step_grows e s t q Hq)); [|exact H].
    intros [t' o] [_ Ho]. cbn in *.
    destruct o as [| | | |[| |]| |]; try reflexivity.
    cbn in Ho. exfalso.
    pose proof (b_ok e s Hb) as Hok. rewrite Hq in Hok.
    inversion Hok as [|? ? (_ & _ & Ht) _]; subst.
    unfold timing in Ht. rewrite Ho in Ht. destruct Ht as [Ha Hl].
    destruct Hs as [Hs|Hs]; [congruence|]. apply (Hs _ Hl).
Qed.

Lemma run_no_listeners_call (e : Env) (T at_time : N) :
  absent e = true -> ~ In (at_time, CallListeners) (trace (run e T)).
Proof.
  intros Ha.
  assert (H : Forall (fun x => snd x <> CallListeners) (trace (run e T))).
  { apply (run_invariant e T
             (fun s => Forall (fun x => snd x <> CallListeners) (trace s))).
    - rewrite started_trace, Ha. repeat constructor; discriminate.
    - intros s t q _ _ _ H Hq _.
      apply (grows_Forall _ _ _ _ (step_grows e s t q Hq)); [|exact H].
      intros [t' o] [_ Ho]. cbn in *. destruct o; try discriminate.
      contradiction. }
  rewrite Forall_forall in H. intros Hin. apply (H _ Hin). reflexivity.
Qed.

Lemma untouched_checks (s : State) :
  Untouched s ->
  checks FromPoll (trace s) = [] /\ checks FromRetry (trace s) = [].
Proof.
  intros [_ Ut _]. split; apply checks_nil;
    (eapply Forall_impl; [|exact Ut]); intros x [H1 H2]; assumption.
Qed.

(** ** What a query can write *)

(** A completed query never writes Unknown. *)
Lemma check_result_known (e : Env) (c : Caller) (s : State) (x : Task) :
  In x (queue (checkNexusStatus e c s)) ->
  In x (queue s) \/
  exists st r, act x = StatusSettled c st r /\ st <> Unknown.
Proof.
  unfold checkNexusStatus. cbn zeta.
  destruct (query e c _) as [|d|d [|] rj]; ops; auto;
    (intros H; apply In_insert in H as [->|H]; [right|left; exact H]);
    eexists; eexists; (split; [reflexivity|discriminate]).
Qed.

(** ** The poll and the cleanup *)

Lemma check_survives (e : Env) (c : Caller) (s : State) (x : Task) :
  In x (queue s) -> In x (queue (checkNexusStatus e c s)).
Proof.
  intros H. unfold checkNexusStatus. cbn zeta.
  destruct (query e c _); ops; auto; apply In_insert; auto.
Qed.

(** Apart from the cleanup, a task removes nothing from the queue but the
    deadline. *)
Lemma exec_survives (e : Env) (a : Action) (s : State) (x : Task) :
  a <> Cleanup -> In x (queue s) -> has_handle (forceShowUI s) x = false ->
  In x (queue (exec e a s)).
Proof.
  intros Ha H Hh.
  destruct a as [|[|]|c st r| | | |]; cbn [exec]; try congruence.
  - exact H.
  - unfold setTimer. ops. apply In_insert. right.
    apply check_survives. exact H.
  - ops. apply filter_In. rewrite Hh. auto.
  - destruct c, r; cbn [racing set_backend]; try destruct (racing s);
      ops; auto; apply filter_In; rewrite Hh; auto.
  - destruct (racing s); ops; auto. apply filter_In; rewrite Hh; auto.
  - apply check_survives. ops. apply In_insert. auto.
  - destruct (mounted s && _); auto using check_survives.
Qed.

Lemma exec_mounted (e : Env) (a : Action) (s : State) :
  mounted (exec e a s) =
  match a with Cleanup => false | _ => mounted s end.
Proof.
  destruct a as [|[|]|c st r| | | |]; cbn [exec]; try reflexivity.
  - destruct (check_flags e FromInit
                (console Log "[App] Tauri listeners initialized" s))
      as (_ & _ & _ & _ & _ & E).
    unfold setTimer. ops. exact E.
  - destruct c, r; cbn [racing set_backend]; try destruct (racing s);
      reflexivity.
  - destruct (racing s); reflexivity.
  - set (s1 := set_queue _ s).
    destruct (check_flags e FromPoll s1) as (_ & _ & _ & _ & _ & E).
    exact E.
  - destruct (mounted s && _); [|reflexivity].
    destruct (check_flags e FromRetry s) as (_ & _ & _ & _ & _ & E).
    exact E.
Qed.

Lemma grows_since_none (a : Action) (t : N) (tr tr' : list (N * Obs)) :
  grows (written a t) tr tr' -> a <> Cleanup ->
  since_cleanup tr = None -> since_cleanup tr' = None.
Proof.
  intros G Ha. induction G as [|[t' o] tr' [_ Ho] G IH]; auto.
  intros H. cbn in *. rewrite (IH H).
  destruct o; try reflexivity. congruence.
Qed.

Lemma grows_since_some (a : Action) (t : N) (tr tr' : list (N * Obs)) :
  grows (written a t) tr tr' -> a <> PollTick ->
  (exists l, since_cleanup tr = Some l /\ checks FromPoll l = []) ->
  exists l, since_cleanup tr' = Some l /\ checks FromPoll l = [].
Proof.
  intros G Ha. induction G as [|[t' o] tr' [_ Ho] G IH]; auto.
  intros H. destruct (IH H) as (l & Hl & Hc). cbn in *. rewrite Hl.
  destruct o as [| | | |c| |];
    try (eexists; split; [reflexivity|exact Hc]).
  - destruct c; try (eexists; split; [reflexivity|exact Hc]).
    cbn in Ho. congruence.
  - exists []. split; reflexivity.
Qed.

Lemma grows_checks (a : Action) (t : N) (tr tr' : list (N * Obs)) c x :
  grows (written a t) tr tr' -> In x (checks c tr) -> In x (checks c tr').
Proof.
  intros G H. apply checks_In. apply checks_In in H.
  eapply grows_In; eauto.
Qed.

Lemma cleanup_dec (a : Action) : a = Cleanup \/ a <> Cleanup.
Proof. destruct a; auto; right; discriminate. Qed.

Lemma poll_dec (a : Action) : a = PollTick \/ a <> PollTick.
Proof. destruct a; auto; right; discriminate. Qed.

Lemma external_cleanup (e : Env) (td : N) :
  teardown e = Some td -> In (external_task Cleanup td) (external e).
Proof.
  intros H. unfold external. rewrite H.
  induction (clicks e) as [|c l IH]; cbn [fold_right].
  - left. reflexivity.
  - apply In_insert. right. exact IH.
Qed.

Lemma started_keeps_external (e : Env) (x : Task) :
  In x (external e) -> has_handle 1 x = false -> In x (queue (started e)).
Proof.
  intros H Hh. rewrite started_queue. apply In_insert. right.
  assert (C : forall q, In x q -> In x (clear1 q)).
  { intros q Hq. unfold clear1. apply filter_In. rewrite Hh. auto. }
  destruct (absent e); [|destruct (listeners e)];
    repeat first [apply C | apply In_insert; right]; exact H.
Qed.

Lemma started_polling (e : Env) : Polling e (started e).
Proof.
  destruct (started_fields e) as (_ & _ & _ & _ & _ & _ & Hm).
  constructor.
  - intros _. split; [|split].
    + exists 0, first_tick. split; [|split; [reflexivity|split]].
      * rewrite started_queue. apply In_insert. left. reflexivity.
      * reflexivity.
      * intros j Hj. lia.
    + intros td Htd. exists (external_task Cleanup td).
      split; [|reflexivity].
      apply started_keeps_external; [|reflexivity].
      apply external_cleanup, Htd.
    + rewrite started_trace.
      destruct (absent e); [|destruct (listeners e)]; reflexivity.
  - intros H. congruence.
  - rewrite started_trace.
    destruct (absent e); [|destruct (listeners e)];
      repeat constructor; discriminate.
Qed.

Section PollingStep.

Variables (e : Env) (s : State) (t : Task) (q : list Task).
Hypothesis Hb : Base e s.
Hypothesis Hp : Polling e s.
Hypothesis Hq : queue s = t :: q.

Let s1 := set_queue q (set_now (due t) s).

Lemma step_is_exec : step e s = exec e (act t) s1.
Proof. unfold step. rewrite Hq. reflexivity. Qed.

Lemma head_ok : task_ok e t.
Proof.
  pose proof (b_ok e s Hb) as H. rewrite Hq in H. inversion H; auto.
Qed.

Lemma tail_ok (x : Task) : In x q -> task_ok e x.
Proof.
  pose proof (b_ok e s Hb) as H. rewrite Hq in H. inversion H; subst.
  rewrite Forall_forall in *. auto.
Qed.

Lemma head_first (x : Task) : In x (t :: q) -> due t <= due x.
Proof.
  pose proof (b_sorted e s Hb) as H. rewrite Hq in H.
  apply sorted_head. exact H.
Qed.

Lemma head_due : now s <= due t.
Proof.
  pose proof (b_due e s Hb) as H. rewrite Hq in H. inversion H; auto.
Qed.

(** A task other than the deadline that stays behind the head is still
    queued after a step that is not the cleanup. *)
Lemma tail_survives (x : Task) :
  act t <> Cleanup -> In x (t :: q) -> act x <> act t ->
  act x <> ForceShowUI -> In x (queue (step e s)).
Proof.
  intros Ha [->|Hx] Hne Hf; [congruence|].
  rewrite step_is_exec. apply exec_survives; auto.
  change (forceShowUI s1) with (forceShowUI s).
  rewrite (b_force e s Hb).
  destruct (tail_ok x Hx) as (H1 & _). rewrite H1.
  destruct (act x); try reflexivity. congruence.
Qed.

Lemma polling_times_step : Forall poll_time_ok (trace (step e s)).
Proof.
  apply (grows_Forall _ _ _ _ (step_grows e s t q Hq));
    [|apply (p_times e s Hp)].
  intros [t' o] [Ht Ho] Hc. cbn [fst snd] in *.
  destruct o as [| | | |[| |]| |]; try discriminate.
  cbn in Ho. destruct head_ok as (_ & _ & Htime).
  unfold timing in Htime. rewrite Ho in Htime.
  destruct Htime as [k Hk]. exists k. congruence.
Qed.

Lemma polling_up_step :
  mounted (step e s) = true ->
  (exists k x, In x (queue (step e s)) /\ act x = PollTick /\
               due x = 10000 * (k + 1) /\ ticked k (trace (step e s))) /\
  (forall td, teardown e = Some td ->
              exists c, In c (queue (step e s)) /\ act c = Cleanup) /\
  since_cleanup (trace (step e s)) = None.
Proof.
  intros Hm. pose proof (step_grows e s t q Hq) as G.
  rewrite step_is_exec, exec_mounted in Hm.
  destruct (cleanup_dec (act t)) as [Ha|Ha]; [rewrite Ha in Hm; discriminate|].
  assert (Hm0 : mounted s = true)
    by (destruct (act t); try exact Hm; congruence).
  destruct (p_up e s Hp Hm0) as ((k & x & Hx & Hax & Hdx & Htk) & Hc & Hn).
  rewrite Hq in Hx, Hc.
  split; [|split].
  - destruct (poll_dec (act t)) as [Hpt|Hpt].
    + destruct Hx as [<-|Hx].
      * (* the queued tick runs and re-arms itself *)
        exists (k + 1),
          {| due := due t + 10000; timer := Some (interval s);
             act := PollTick |}.
        split; [|split; [reflexivity|split]].
        -- rewrite step_is_exec, Hpt. cbn [exec].
           apply check_survives. ops. apply In_insert. left. reflexivity.
        -- cbn [due]. lia.
        -- intros j Hj. destruct (N.eq_dec j k) as [->|Hjk].
           ++ rewrite step_is_exec, Hpt. cbn [exec].
              rewrite check_grows. apply checks_In. left.
              unfold s1. ops. rewrite Hdx. reflexivity.
           ++ apply (grows_checks _ _ _ _ _ _ G). apply Htk. lia.
      * exists k, x. split; [|split; [exact Hax|split; [exact Hdx|]]].
        -- rewrite step_is_exec. apply exec_survives; auto.
           change (forceShowUI s1) with (forceShowUI s).
           rewrite (b_force e s Hb).
           destruct (tail_ok x Hx) as (H1 & _). rewrite H1, Hax. reflexivity.
        -- intros j Hj. apply (grows_checks _ _ _ _ _ _ G). auto.
    + exists k, x. split; [|split; [exact Hax|split; [exact Hdx|]]].
      * apply tail_survives; auto; rewrite Hax; auto. discriminate.
      * intros j Hj. apply (grows_checks _ _ _ _ _ _ G). auto.
  - intros td Htd. destruct (Hc td Htd) as (c & Hin & Hac).
    exists c. split; [|exact Hac].
    apply tail_survives; auto; rewrite Hac; auto. discriminate.
  - apply (grows_since_none _ _ _ _ G Ha Hn).
Qed.

Lemma polling_down_step :
  mounted (step e s) = false ->
  Forall (fun x => act x <> PollTick) (queue (step e s)) /\
  (exists td, teardown e = Some td /\ td <= now (step e s) /\
              In (td, CleanupRan) (trace (step e s)) /\
              forall j, 10000 * (j + 1) < td ->
                        In (10000 * (j + 1))
                           (checks FromPoll (trace (step e s)))) /\
  exists l, since_cleanup (trace (step e s)) = Some l /\
            checks FromPoll l = [].
Proof.
  intros Hm. pose proof (step_grows e s t q Hq) as G.
  assert (Hnow : now (step e s) = due t)
    by (rewrite step_is_exec, exec_now; reflexivity).
  rewrite step_is_exec, exec_mounted in Hm.
  destruct (cleanup_dec (act t)) as [Ha|Ha].
  - (* the cleanup runs *)
    destruct head_ok as (_ & _ & Htime). unfold timing in Htime.
    rewrite Ha in Htime.
    assert (Hticks : forall j, 10000 * (j + 1) < due t ->
                       In (10000 * (j + 1)) (checks FromPoll (trace s))).
    { intros j Hj. destruct (mounted s) eqn:Hm0.
      - destruct (p_up e s Hp Hm0) as ((k & x & Hx & Hax & Hdx & Htk) & _).
        rewrite Hq in Hx. pose proof (head_first x Hx). apply Htk. lia.
      - destruct (p_down e s Hp Hm0) as (_ & (td & Htd & _ & _ & H) & _).
        apply H. congruence. }
    split; [|split].
    + rewrite step_is_exec, Ha. cbn [exec]. unfold s1. ops.
      apply Forall_forall. intros x Hx Hax.
      apply filter_In in Hx as [Hx Hh].
      destruct (tail_ok x Hx) as (_ & H2 & _).
      rewrite (b_interval e s Hb), H2, Hax in Hh. discriminate.
    + exists (due t). split; [exact Htime|]. split; [lia|]. split.
      * rewrite step_is_exec, Ha. cbn [exec]. unfold s1. ops.
        right. left. reflexivity.
      * intros j Hj. apply (grows_checks _ _ _ _ _ _ G). auto.
    + rewrite step_is_exec, Ha. cbn [exec]. unfold s1. ops.
      eexists. split; reflexivity.
  - assert (Hm0 : mounted s = false)
      by (destruct (act t); try exact Hm; congruence).
    destruct (p_down e s Hp Hm0)
      as (Hnp & (td & Htd & Hle & Hran & Hticks) & Hsince).
    rewrite Hq in Hnp. inversion Hnp as [|? ? Hnt Hnq]; subst.
    split; [|split].
    + apply Forall_forall. intros x Hx.
      apply (step_queue e s t q x Hq) in Hx as [Hx|Hx].
      * rewrite Forall_forall in Hnq. auto.
      * unfold spawned in Hx. intros Hax. rewrite Hax in Hx. congruence.
    + exists td. split; [exact Htd|]. split; [pose proof head_due; lia|].
      split; [apply (grows_In _ _ _ _ G Hran)|].
      intros j Hj. apply (grows_checks _ _ _ _ _ _ G). auto.
    + apply (grows_since_some _ _ _ _ G Hnt Hsince).
Qed.

Lemma polling_step : Polling e (step e s).
Proof.
  constructor;
    auto using polling_up_step, polling_down_step, polling_times_step.
Qed.

End PollingStep.

Lemma run_polling (e : Env) (T : N) : Polling e (run e T).
Proof.
  apply (run_invariant e T (Polling e)).
  - apply started_polling.
  - intros s t q Hb _ _ Hp Hq _. apply (polling_step e s t q); assumption.
Qed.

(** Once the teardown time has passed, the cleanup has run. *)
Lemma run_unmounted (e : Env) (T td : N) :
  teardown e = Some td -> td <= T -> mounted (run e T) = false.
Proof.
  intros Htd HT. destruct (mounted (run e T)) eqn:Hm; [|reflexivity].
  exfalso.
  destruct (p_up e _ (run_polling e T) Hm) as (_ & Hc & _).
  destruct (Hc td Htd) as (c & Hin & Hac).
  destruct (run_facts e T) as (HB & _).
  pose proof (b_ok e _ HB) as Hok. rewrite Forall_forall in Hok.
  destruct (Hok c Hin) as (_ & _ & Ht). unfold timing in Ht.
  rewrite Hac in Ht.
  pose proof (run_quiescent e T) as HQ. unfold quiescent in HQ.
  rewrite Forall_forall in HQ. specialize (HQ c Hin).
  assert (due c = td) by congruence. lia.
Qed.

Lemma started_first_tick (e : Env) : In first_tick (queue (started e)).
Proof. rewrite started_queue. apply In_insert. left. reflexivity. Qed.

(** The tick at each multiple of 10000 ms happens, unless the teardown
    came first. *)
Lemma run_tick (e : Env) (T k : N) :
  10000 * (k + 1) <= T ->
  (forall td, teardown e = Some td -> 10000 * (k + 1) < td) ->
  In (10000 * (k + 1)) (checks FromPoll (trace (run e T))).
Proof.
  intros Hk Htd. pose proof (run_polling e T) as HP.
  destruct (mounted (run e T)) eqn:Hm.
  - destruct (p_up e _ HP Hm) as ((k' & x & Hx & _ & Hdx & Htk) & _).
    pose proof (run_quiescent e T) as HQ. unfold quiescent in HQ.
    rewrite Forall_forall in HQ. specialize (HQ x Hx).
    apply Htk. lia.
  - destruct (p_down e _ HP Hm) as (_ & (td & Ht & _ & _ & H) & _).
    apply H. auto.
Qed.

(** ** What the trace says of failures *)

(** A task that carries neither of the two handles is never removed from
    the queue by another task. *)
Lemma exec_survives_all (e : Env) (a : Action) (s : State) (x : Task) :
  In x (queue s) -> has_handle (forceShowUI s) x = false ->
  has_handle (interval s) x = false -> In x (queue (exec e a s)).
Proof.
  intros H H1 H2. destruct (cleanup_dec a) as [->|Ha].
  - cbn [exec]. ops. apply filter_In. rewrite H2. auto.
  - apply exec_survives; assumption.
Qed.

Lemma run_failure_logged (e : Env) (T : N) :
  absent e = false -> listeners_fail e -> failure_time e <= T ->
  In (failure_time e, Console Err "[App] Failed to initialize:")
     (trace (run e T)).
Proof.
  intros Habs Hf HT.
  pose (P := fun s =>
    (exists x, In x (queue s) /\ act x = ListenersSettled Rejected) \/
    In (failure_time e, Console Err "[App] Failed to initialize:")
       (trace s)).
  destruct (run_invariant e T P) as (HP & HB & _).
  - unfold P. rewrite started_trace, started_queue, Habs.
    unfold failure_time.
    destruct Hf as [->|[d ->]].
    + right. right. right. right. left. reflexivity.
    + left. exists (listeners_task d Rejected). split; [|reflexivity].
      apply In_insert. right. apply In_insert. left. reflexivity.
  - intros s t q Hb _ _ [(x & Hx & Hax)|Hin] Hq _.
    + rewrite Hq in Hx.
      pose proof (b_ok e s Hb) as Hok. rewrite Hq in Hok.
      rewrite Forall_forall in Hok.
      destruct Hx as [<-|Hx].
      * right. destruct (Hok t (or_introl eq_refl)) as (_ & _ & Ht).
        unfold timing in Ht. rewrite Hax in Ht. destruct Ht as [_ Ht].
        unfold step. rewrite Hq, Hax. cbn [exec]. ops.
        unfold failure_time. rewrite Ht.
        right. right. right. left. reflexivity.
      * left. exists x. split; [|exact Hax].
        unfold step. rewrite Hq.
        destruct (Hok x (or_intror Hx)) as (H1 & H2 & _).
        rewrite Hax in H1, H2.
        apply exec_survives_all; ops; auto.
        -- rewrite (b_force e s Hb). exact H1.
        -- rewrite (b_interval e s Hb). exact H2.
    + right. apply (grows_In _ _ _ _ (step_grows e s t q Hq) Hin).
  - destruct HP as [(x & Hx & Hax)|Hin]; [exfalso|exact Hin].
    pose proof (b_ok e _ HB) as Hok. rewrite Forall_forall in Hok.
    destruct (Hok x Hx) as (_ & _ & Ht). unfold timing in Ht.
    rewrite Hax in Ht. destruct Ht as [_ Ht].
    pose proof (run_quiescent e T) as HQ. unfold quiescent in HQ.
    rewrite Forall_forall in HQ. specialize (HQ x Hx).
    unfold failure_time in HT. rewrite Ht in HT. lia.
Qed.

(** Only the Retry button's call can end in an unhandled rejection. *)
Lemma run_unhandled (e : Env) (T t : N) (c : Caller) :
  In (t, Unhandled c) (trace (run e T)) -> c = FromRetry.
Proof.
  intros Hin.
  pose (Q := fun x : N * Obs =>
    match snd x with Unhandled c' => c' = FromRetry | _ => True end).
  assert (H : Forall Q (trace (run e T))).
  { apply (run_invariant e T (fun s => Forall Q (trace s))).
    - rewrite started_trace.
      destruct (absent e); [|destruct (listeners e)];
        repeat constructor.
    - intros s x q _ _ _ H Hq _.
      apply (grows_Forall _ _ _ _ (step_grows e s x q Hq)); [|exact H].
      intros [t' o] [_ Ho]. unfold Q. cbn [snd] in *.
      destruct o; auto. destruct Ho as [Ho _]. exact Ho. }
  rewrite Forall_forall in H. apply (H _ Hin).
Qed.

(* ====================================================================== *)
(** * Further invariants: the deadline, the course of [init], the ticks *)
(* ====================================================================== *)

(** ** Counting trace entries *)

Lemma times_cons (p : Obs -> bool) (t : N) (o : Obs) (tr : list (N * Obs)) :
  times p ((t, o) :: tr) = if p o then t :: times p tr else times p tr.
Proof. unfold times. cbn. destruct (p o); reflexivity. Qed.







(** ** Parts of the queue *)

Lemma sub_cons (pa : Action -> bool) (t : Task) (q : list Task) :
  sub pa (t :: q) = if pa (act t) then t :: sub pa q else sub pa q.
Proof. reflexivity. Qed.

Lemma sub_In (pa : Action -> bool) (q : list Task) (x : Task) :
  In x (sub pa q) <-> In x q /\ pa (act x) = true.
Proof. apply filter_In. Qed.

Lemma sub_insert_out (pa : Action -> bool) (t : Task) (q : list Task) :
  pa (act t) = false -> sub pa (insert t q) = sub pa q.
Proof.
  intros Ht. induction q as [|u q IH]; cbn [insert].
  - rewrite sub_cons, Ht. reflexivity.
  - destruct (due t <? due u).
    + rewrite sub_cons, Ht. reflexivity.
    + rewrite !sub_cons, IH. reflexivity.
Qed.

Lemma sub_insert_new (pa : Action -> bool) (t : Task) (q : list Task) :
  pa (act t) = true -> sub pa q = [] -> sub pa (insert t q) = [t].
Proof.
  intros Ht. induction q as [|u q IH]; cbn [insert]; intros Hq.
  - rewrite sub_cons, Ht. reflexivity.
  - rewrite sub_cons in Hq. destruct (pa (act u)) eqn:Hu; [discriminate|].
    destruct (due t <? due u).
    + rewrite !sub_cons, Ht, Hu, Hq. reflexivity.
    + rewrite sub_cons, Hu. auto.
Qed.

Lemma sub_clear (pa : Action -> bool) (h : nat) (q : list Task) :
  (forall x, In x q -> pa (act x) = true -> has_handle h x = false) ->
  sub pa (filter (fun t => negb (has_handle h t)) q) = sub pa q.
Proof.
  induction q as [|u q IH]; intros H; [reflexivity|].
  cbn [filter]. rewrite sub_cons.
  assert (IH' : sub pa (filter (fun t => negb (has_handle h t)) q)
                = sub pa q) by (apply IH; intros; apply H; cbn; auto).
  destruct (has_handle h u) eqn:Hh; cbn [negb].
  - rewrite IH'. destruct (pa (act u)) eqn:Hu; [|reflexivity].
    rewrite (H u (or_introl eq_refl) Hu) in Hh. discriminate.
  - rewrite sub_cons, IH'. reflexivity.
Qed.

Lemma sub_check (pa : Action -> bool) (e : Env) (c : Caller) (s : State) :
  (forall st r, pa (StatusSettled c st r) = false) ->
  sub pa (queue (checkNexusStatus e c s)) = sub pa (queue s).
Proof.
  intros H. unfold checkNexusStatus. cbn zeta.
  destruct (query e c _); ops; try reflexivity;
    apply sub_insert_out; apply H.
Qed.

(** A task leaves a part of the queue alone when it queues nothing of that
    part and the timers it clears are not of that part. *)
Lemma exec_sub (pa : Action -> bool) (e : Env) (a : Action) (s : State) :
  (forall b, spawns a b -> pa b = false) ->
  (a = Cleanup ->
   forall x, In x (queue s) -> pa (act x) = true ->
             has_handle (interval s) x = false) ->
  (finishing (racing s) a = true ->
   forall x, In x (queue s) -> pa (act x) = true ->
             has_handle (forceShowUI s) x = false) ->
  sub pa (queue (exec e a s)) = sub pa (queue s).
Proof.
  intros Hs Hi Hf.
  destruct a as [|[|]|c st r| | | |]; cbn [exec].
  - reflexivity.
  - unfold setTimer. ops.
    rewrite sub_insert_out by (apply (Hs StatusTimeout); reflexivity).
    rewrite sub_check by (intros st r; apply Hs; reflexivity).
    reflexivity.
  - ops. apply sub_clear. apply Hf. reflexivity.
  - destruct c, r; cbn [racing set_backend finishing] in *;
      try destruct (racing s); ops; try reflexivity;
      apply sub_clear; apply Hf; reflexivity.
  - cbn [finishing] in Hf. destruct (racing s); ops; [|reflexivity].
    apply sub_clear. apply Hf. reflexivity.
  - rewrite sub_check by (intros st r; apply Hs; reflexivity).
    ops. apply sub_insert_out. apply (Hs PollTick). reflexivity.
  - ops. apply sub_clear. apply Hi. reflexivity.
  - destruct (mounted s && _); [|reflexivity].
    apply sub_check. intros st r. apply Hs. reflexivity.
Qed.




Lemma sub_filter (pa : Action -> bool) (f : Task -> bool) (q : list Task) :
  sub pa (filter f q) = filter f (sub pa q).
Proof.
  induction q as [|u q IH]; [reflexivity|].
  cbn [filter]. rewrite sub_cons.
  destruct (f u) eqn:Hf, (pa (act u)) eqn:Hu;
    rewrite ?sub_cons, ?Hu; cbn [filter]; rewrite ?Hf, IH; reflexivity.
Qed.

(** From outside come presses and the cleanup, nothing else. *)
Lemma sub_external (pa : Action -> bool) (e : Env) :
  pa RetryClick = false -> pa Cleanup = false -> sub pa (external e) = [].
Proof.
  intros Hr Hc. unfold external.
  induction (clicks e) as [|c l IH]; cbn [fold_right].
  - destruct (teardown e); [|reflexivity].
    rewrite sub_cons. cbn [act external_task]. rewrite Hc. reflexivity.
  - rewrite sub_insert_out; [exact IH|exact Hr].
Qed.



(** ** The deadline *)




(** ** The course of [init] *)
























(** A queued continuation of [init] is still to come. *)
Lemma sub_pending (pa : Action -> bool) (T : N) (s : State) (x : Task)
                  (l : list Task) :
  quiescent T s -> sub pa (queue s) = x :: l -> In x (queue s) /\ T < due x.
Proof.
  intros HQ H.
  assert (Hin : In x (sub pa (queue s))) by (rewrite H; left; reflexivity).
  apply sub_In in Hin as [Hin _]. split; [exact Hin|].
  unfold quiescent in HQ. rewrite Forall_forall in HQ. auto.
Qed.



(** ** The deadline over a whole run *)



(** ** The ticks of the poll *)

(** Only a tick of the interval calls [checkNexusStatus] for the poll. *)
Lemma exec_poll_checks (e : Env) (a : Action) (s : State) :
  checks FromPoll (trace (exec e a s))
  = ((if is_poll a then [now s] else []) ++ checks FromPoll (trace s))%list.
Proof.
  destruct a as [|[|]|c st r| | | |]; cbn [exec].
  - reflexivity.
  - unfold setTimer. ops. rewrite check_grows. reflexivity.
  - reflexivity.
  - destruct c, r; cbn [racing set_backend]; try destruct (racing s);
      reflexivity.
  - destruct (racing s); reflexivity.
  - rewrite check_grows. reflexivity.
  - reflexivity.
  - destruct (mounted s && _); [rewrite check_grows|]; reflexivity.
Qed.

Lemma started_ticks (e : Env) : Ticks_inv e (started e).
Proof.
  exists O.
  destruct (started_fields e) as (Hn & _ & _ & _ & _ & _ & Hm).
  split; [rewrite started_trace;
          destruct (absent e); [|destruct (listeners e)]; reflexivity|].
  split; [rewrite Hn; cbn; lia|].
  rewrite Hm.
  assert (HX : sub is_poll (insert deadline_task (external e)) = []).
  { rewrite sub_insert_out by reflexivity. apply sub_external; reflexivity. }
  rewrite started_queue. apply sub_insert_new; [reflexivity|].
  destruct (absent e).
  - unfold clear1. rewrite !sub_filter, HX. reflexivity.
  - destruct (listeners e) as [|L r|].
    + unfold clear1. rewrite sub_filter, HX. reflexivity.
    + rewrite sub_insert_out by (destruct r; reflexivity). exact HX.
    + exact HX.
Qed.

Lemma ticks_step (e : Env) (s : State) (t : Task) (q : list Task) :
  Base e s -> Ticks_inv e s -> queue s = t :: q -> Ticks_inv e (step e s).
Proof.
  intros HB (k & Hk & Hn & Hm) Hq.
  pose proof (b_ok e s HB) as Hok. rewrite Hq in Hok.
  inversion Hok as [|? ? (_ & _ & Htime) Hokq]; subst.
  pose proof (b_sorted e s HB) as Hsort. rewrite Hq in Hsort.
  destruct Hsort as [Hhead _]. rewrite Forall_forall in Hhead.
  pose proof (b_due e s HB) as Hdue. rewrite Hq in Hdue.
  assert (Hnt : now s <= due t) by (inversion Hdue; auto).
  pose proof (b_interval e s HB) as Hint.
  pose proof (b_force e s HB) as Hforce.
  rewrite Hq in Hm. unfold step. rewrite Hq.
  set (s1 := set_queue q (set_now (due t) s)).
  pose proof (exec_poll_checks e (act t) s1) as EC.
  pose proof (exec_mounted e (act t) s1) as EM.
  pose proof (exec_now e (act t) s1) as EN.
  change (trace s1) with (trace s) in EC.
  change (now s1) with (due t) in EC, EN.
  change (mounted s1) with (mounted s) in EM.
  destruct (is_poll (act t)) eqn:Ep.
  - (* a tick *)
    assert (Ea : act t = PollTick)
      by (destruct (act t); try discriminate; reflexivity).
    rewrite sub_cons, Ep in Hm.
    destruct (mounted s) eqn:Em; [|destruct Hm as [Hm _]; discriminate].
    injection Hm as Et Hsub.
    exists (S k). rewrite EC, EN, EM, Ea, Hk.
    split; [rewrite Et; reflexivity|].
    split; [rewrite Et; cbn [due tick]; lia|].
    cbn [exec]. rewrite sub_check by reflexivity.
    assert (Enew : {| due := now s1 + 10000; timer := Some (interval s1);
                      act := PollTick |} = tick (S (S k))).
    { unfold s1, tick. ops. rewrite Hint, Et. cbn [due tick].
      f_equal. lia. }
    ops. rewrite Enew. apply sub_insert_new; [reflexivity|exact Hsub].
  - rewrite sub_cons, Ep in Hm. cbn [app] in EC.
    exists k. rewrite EC, EN, EM.
    split; [exact Hk|]. split; [lia|].
    destruct (act t) eqn:Ea; try discriminate.
    5: { (* the cleanup *)
      cbn [exec]. ops. rewrite sub_filter.
      change (queue s1) with q. change (interval s1) with (interval s).
      unfold timing in Htime. rewrite Ea in Htime.
      destruct (mounted s) eqn:Em.
      - rewrite Hm, Hint.
        split; [reflexivity|].
        exists (due t). split; [exact Htime|]. split; [lia|].
        assert (Hin : In (tick (S k)) q).
        { apply (sub_In is_poll q). rewrite Hm. left. reflexivity. }
        apply Hhead in Hin. exact Hin.
      - destruct Hm as [Hm Htd]. rewrite Hm. split; [reflexivity|exact Htd]. }
    all: assert (Hq' : sub is_poll (queue (exec e (act t) s1))
                       = sub is_poll q);
      [ apply exec_sub;
        [ intros b Hb; destruct b; try reflexivity;
          cbn in Hb; rewrite Ea in Hb; discriminate
        | rewrite Ea; discriminate
        | intros _ x Hx Hpx; change (forceShowUI s1) with (forceShowUI s);
          rewrite Hforce; rewrite Forall_forall in Hokq;
          destruct (Hokq x Hx) as (-> & _ & _);
          destruct (act x); try discriminate; reflexivity ]
      | rewrite Ea in Hq'; rewrite Hq'; exact Hm ].
Qed.

Lemma run_ticks (e : Env) (T : N) : Ticks_inv e (run e T).
Proof.
  apply (run_invariant e T (Ticks_inv e)).
  - apply started_ticks.
  - intros s t q HB _ _ HT Hq _. apply (ticks_step e s t q HB HT Hq).
Qed.

Lemma div_between (a : N) (k : nat) :
  10000 * N.of_nat k <= a -> a < 10000 * N.of_nat (S k) ->
  N.to_nat (a / 10000) = k.
Proof.
  intros H1 H2.
  rewrite <- (N.div_unique a 10000 (N.of_nat k) (a - 10000 * N.of_nat k));
    [apply Nat2N.id|lia|lia].
Qed.

(** ** The listeners *)

Lemma grows_listeners (a : Action) (t : N) (tr tr' : list (N * Obs)) :
  grows (written a t) tr tr' ->
  times is_listeners_call tr' = times is_listeners_call tr.
Proof.
  induction 1 as [|[t' o] tr' [_ Ho] _ IH]; [reflexivity|].
  rewrite times_cons, IH.
  destruct o; try reflexivity. destruct Ho.
Qed.

(** ** The Retry button *)

(** A press queries the backend when the component is mounted and the
    banner is on screen, and nothing else queries for the button. *)
Lemma exec_retry_checks (e : Env) (a : Action) (s : State) :
  checks FromRetry (trace (exec e a s))
  = ((if is_click a && mounted s
          && shows WarningBanner
                   (render (isInitializing s) (status_str (backend s)))
      then [now s] else []) ++ checks FromRetry (trace s))%list.
Proof.
  destruct a as [|[|]|c st r| | | |]; cbn [exec is_click andb].
  - reflexivity.
  - unfold setTimer. ops. rewrite check_grows. reflexivity.
  - reflexivity.
  - destruct c, r; cbn [racing set_backend]; try destruct (racing s);
      reflexivity.
  - destruct (racing s); reflexivity.
  - rewrite check_grows. reflexivity.
  - reflexivity.
  - destruct (mounted s && _); [rewrite check_grows|]; reflexivity.
Qed.

Lemma started_retry (e : Env) : Retry_inv e (started e).
Proof.
  split.
  - rewrite started_trace.
    destruct (absent e); [|destruct (listeners e)]; constructor.
  - apply Forall_forall. intros x Hx Ha.
    assert (Hext : In x (external e)).
    { rewrite started_queue in Hx.
      assert (Hd : forall y, In y (insert deadline_task (external e)) ->
                             act y = RetryClick -> In y (external e)).
      { intros y Hy Hay. apply In_insert in Hy as [->|Hy];
          [discriminate|exact Hy]. }
      apply In_insert in Hx as [->|Hx]; [discriminate|].
      destruct (absent e).
      - unfold clear1 in Hx. apply filter_In in Hx as [Hx _].
        apply filter_In in Hx as [Hx _]. auto.
      - destruct (listeners e) as [|L r|].
        + unfold clear1 in Hx. apply filter_In in Hx as [Hx _]. auto.
        + apply In_insert in Hx as [->|Hx]; [discriminate|auto].
        + auto. }
    clear Hx. unfold external in Hext.
    induction (clicks e) as [|c l IH]; cbn [fold_right] in Hext.
    + destruct (teardown e); [|destruct Hext].
      destruct Hext as [<-|[]]. discriminate.
    + apply In_insert in Hext as [->|Hext]; [left; reflexivity|].
      right. auto.
Qed.

Lemma retry_step (e : Env) (s : State) (t : Task) (q : list Task) :
  Base e s -> Ready_inv e s -> Retry_inv e s -> queue s = t :: q ->
  Retry_inv e (step e s).
Proof.
  intros HB HR [HC HQ] Hq. rewrite Hq in HQ.
  inversion HQ as [|? ? Ht HQq]; subst.
  pose proof (b_due e s HB) as Hdue. rewrite Hq in Hdue.
  assert (Hnt : now s <= due t) by (inversion Hdue; auto).
  unfold step. rewrite Hq.
  set (s1 := set_queue q (set_now (due t) s)).
  split.
  - rewrite exec_retry_checks.
    change (checks FromRetry (trace s1)) with (checks FromRetry (trace s)).
    change (now s1) with (due t).
    change (isInitializing s1) with (isInitializing s).
    destruct (is_click (act t)) eqn:Ec; [|exact HC].
    destruct (mounted s1); [|exact HC].
    destruct (isInitializing s) eqn:EI; [exact HC|]. cbn [andb].
    destruct (shows WarningBanner _); [|exact HC].
    constructor; [|exact HC]. split.
    + apply Ht. destruct (act t); try discriminate; reflexivity.
    + destruct (r_ready e s HR EI) as [_ Hle]. lia.
  - apply Forall_forall. intros x Hx Ha.
    apply exec_queue in Hx as [Hx|Hx].
    + rewrite Forall_forall in HQq. apply HQq; assumption.
    + unfold spawned in Hx. rewrite Ha in Hx. destruct Hx.
Qed.

(** ** The root element *)

Lemma find_first (A : Type) (f : A -> bool) (l : list A) (x : A) :
  find f l = Some x <->
  exists l1 l2, l = (l1 ++ x :: l2)%list /\ f x = true /\
                Forall (fun y => f y = false) l1.
Proof.
  induction l as [|a l IH]; cbn [find].
  - split; [discriminate|].
    intros (l1 & l2 & H & _). destruct l1; discriminate.
  - destruct (f a) eqn:Ea.
    + split.
      * intros H. inversion H; subst. exists [], l. auto.
      * intros (l1 & l2 & H & Hx & Hl1). destruct l1 as [|b l1].
        -- inversion H. reflexivity.
        -- inversion H; subst. inversion Hl1; congruence.
    + rewrite IH. split.
      * intros (l1 & l2 & -> & Hx & Hl1). exists (a :: l1), l2. auto.
      * intros (l1 & l2 & H & Hx & Hl1). destruct l1 as [|b l1].
        -- inversion H; subst. congruence.
        -- inversion H; subst. inversion Hl1; subst.
           exists l1, l2. auto.
Qed.

(** ** Exact accounts of one run of the effect *)







(** One run of the effect registers the listeners once, at time 0, if the
    bridge is there. *)
Lemma run_listeners_calls (e : Env) (T : N) :
  times is_listeners_call (trace (run e T))
  = if absent e then [] else [0].
Proof.
  apply (run_invariant e T
           (fun s => times is_listeners_call (trace s)
                     = if absent e then [] else [0])).
  - rewrite started_trace.
    destruct (absent e); [|destruct (listeners e)]; reflexivity.
  - intros s t q _ _ _ H Hq _.
    rewrite (grows_listeners _ _ _ _ (step_grows e s t q Hq)). exact H.
Qed.

(** The component is mounted until the teardown. *)
Lemma run_mounted (e : Env) (T : N) :
  mounted (run e T) = negb (torn_down e T).
Proof.
  unfold torn_down.
  destruct (mounted (run e T)) eqn:Em.
  - destruct (teardown e) as [td|] eqn:Etd; [|reflexivity].
    destruct (td <=? T) eqn:E; [|reflexivity].
    apply N.leb_le in E.
    rewrite (run_unmounted e T td Etd E) in Em. discriminate.
  - destruct (p_down e _ (run_polling e T) Em)
      as (_ & (td & Etd & Hle & _) & _).
    destruct (run_facts e T) as (_ & _ & HN).
    rewrite Etd.
    assert (E : (td <=? T) = true) by (apply N.leb_le; lia).
    rewrite E. reflexivity.
Qed.

(* ====================================================================== *)
(** * The properties of the specification *)
(* ====================================================================== *)

(** ** The flag leaves Initializing exactly once *)

(** C1.  In every run the readiness flag leaves Initializing exactly once
    and never comes back: at any time [T] the flag is up exactly when [T]
    is before [ready_time e], a moment no later than the 3000 ms deadline;
    the trace holds no change of the flag before that moment and exactly
    one, at that moment, from then on; and every call of the setter, from
    the deadline callback, the capability-absent branch or the [finally]
    block, passes [false]. *)
Theorem readiness_flips_exactly_once (e : Env) (T : N) :
  isInitializing (run e T) = (T <? ready_time e) /\
  flips (trace (run e T)) =
    (if T <? ready_time e then [] else [ready_time e]) /\
  ready_time e <= 3000 /\
  Forall setter_false (trace (run e T)).
Proof.
  destruct (run_flag e T) as [H1 H2].
  auto using ready_time_le, run_setter_false.
Qed.

(** ** The deadline *)

(** C2.  The effect arms a timeout of 3000 ms whose callback sets the flag
    to Ready whatever the state it runs in; so in every run the loading
    screen is gone at 3000 ms and at any later time, and in a run whose
    [init] never completes (the bridge is there and the listeners' promise
    never settles) it is gone at 3000 ms exactly. *)
Theorem deadline_forces_ready :
  (forall e, isInitializing (started e) = true ->
             In deadline_task (queue (started e))) /\
  (forall e s, isInitializing (exec e ForceShowUI s) = false) /\
  (forall e T, isInitializing (run e (3000 + T)) = false) /\
  (forall e T, absent e = false -> listeners e = LPending ->
               isInitializing (run e T) = (T <? 3000)).
Proof.
  split; [|split; [|split]].
  - intros e H. rewrite started_queue.
    pose proof (started_flag e) as HF.
    apply In_insert. right.
    destruct (absent e); [destruct HF; congruence|].
    destruct (listeners e); try (destruct HF; congruence).
    + apply In_insert. right. apply In_insert. left. reflexivity.
    + apply In_insert. left. reflexivity.
  - reflexivity.
  - intros e T. destruct (run_flag e (3000 + T)) as [-> _].
    apply N.ltb_ge. pose proof (ready_time_le e). lia.
  - intros e T Ha Hl. destruct (run_flag e T) as [-> _].
    unfold ready_time. rewrite Ha, Hl. reflexivity.
Qed.

(** ** The bridge is absent *)

(** C3, as stated, fails: with the bridge absent the poll still ticks at
    10000 ms, queries the backend, and the status leaves Unknown. *)
Lemma no_bridge_still_polls :
  absent no_bridge = true /\
  checks FromPoll (trace (run no_bridge 10100)) = [10000] /\
  backend (run no_bridge 10100) = Disconnected.
Proof. vm_compute. auto. Qed.

(** C3, amended.  When the bridge is absent at probe time, the effect itself
    sets the flag to Ready at time 0 and cancels the deadline timer, and
    [init] stops there: the listeners are never registered, at no time of
    the run, and [init] never queries the backend.  The recurring poll is
    armed all the same, so the status stays Unknown and nothing queries the
    backend only until the poll's first tick at 10000 ms, which does query
    it unless the teardown came first. *)
Theorem absent_bridge_stops_init (e : Env) (Habs : absent e = true) :
  isInitializing (started e) = false /\
  flips (trace (started e)) = [0] /\
  Forall (fun t => act t <> ForceShowUI) (queue (started e)) /\
  (forall T, isInitializing (run e T) = false) /\
  (forall T, (forall t, ~ In (t, CallListeners) (trace (run e T))) /\
             checks FromInit (trace (run e T)) = []) /\
  (forall T, T < 10000 ->
             backend (run e T) = Unknown /\
             forall c, checks c (trace (run e T)) = []) /\
  In first_tick (queue (started e)) /\
  (forall T, 10000 <= T ->
             (forall td, teardown e = Some td -> 10000 < td) ->
             In 10000 (checks FromPoll (trace (run e T)))).
Proof.
  pose proof (started_flag e) as HF. rewrite Habs in HF.
  destruct HF as [H1 H2].
  assert (RT : ready_time e = 0) by (unfold ready_time; rewrite Habs; auto).
  split; [exact H1|]. split; [exact H2|].
  split; [|split; [|split; [|split; [|split]]]].
  - pose proof (b_ok e _ (started_base e)) as Hok.
    rewrite Forall_forall in Hok. apply Forall_forall. intros t Ht Hact.
    destruct (Hok t Ht) as (Hh & _). rewrite Hact in Hh. cbn in Hh.
    rewrite started_queue, Habs in Ht.
    apply In_insert in Ht as [->|Ht]; [discriminate|].
    unfold clear1 in Ht. apply filter_In in Ht as [_ Ht].
    rewrite Hh in Ht. discriminate.
  - intros T. destruct (run_flag e T) as [-> _]. rewrite RT.
    apply N.ltb_ge. lia.
  - intros T. split; [intros t; apply run_no_listeners_call, Habs|].
    apply run_no_init_check. left. exact Habs.
  - intros T HT.
    assert (He : early e T) by (split; [exact HT|congruence]).
    pose proof (run_untouched e T He) as HU.
    split; [apply (u_backend _ HU)|].
    intros [| |]; [apply run_no_init_check; left; exact Habs| |];
      apply (untouched_checks _ HU).
  - apply started_first_tick.
  - intros T HT Htd. apply (run_tick e T 0); assumption.
Qed.

Lemma absent_bridge_stops_init_witness :
  isInitializing (started no_bridge) = false /\
  flips (trace (started no_bridge)) = [0] /\
  Forall (fun t => act t <> ForceShowUI) (queue (started no_bridge)) /\
  (forall T, isInitializing (run no_bridge T) = false) /\
  (forall T, (forall t, ~ In (t, CallListeners) (trace (run no_bridge T))) /\
             checks FromInit (trace (run no_bridge T)) = []) /\
  (forall T, T < 10000 ->
             backend (run no_bridge T) = Unknown /\
             forall c, checks c (trace (run no_bridge T)) = []) /\
  In first_tick (queue (started no_bridge)) /\
  (forall T, 10000 <= T ->
             (forall td, teardown no_bridge = Some td -> 10000 < td) ->
             In 10000 (checks FromPoll (trace (run no_bridge T)))).
Proof. apply (absent_bridge_stops_init no_bridge). reflexivity. Defined.

(** ** The first status check hangs *)




(** ** The listeners fail *)

(** C5, as stated, fails: when the listeners throw, or their promise
    rejects, the loading screen goes at once and [init] never calls
    [checkNexusStatus]; the first query is the poll's, at 10000 ms. *)
Lemma listeners_failure_skips_first_check :
  flips (trace (run broken_listeners 9999)) = [0] /\
  checks FromInit (trace (run broken_listeners 9999)) = [] /\
  checks FromPoll (trace (run broken_listeners 9999)) = [] /\
  flips (trace (run rejecting_listeners 9999)) = [100] /\
  checks FromInit (trace (run rejecting_listeners 9999)) = [] /\
  checks FromPoll (trace (run rejecting_listeners 10000)) = [10000].
Proof. vm_compute. repeat split. Qed.

(** C5, amended.  When registering the listeners throws or rejects, the
    outer [catch] of [init] logs the error and the [finally] block cancels
    the deadline timer and sets the flag to Ready, leaving the status as it
    was; the first status check is skipped.  So the loading screen goes
    when the failure surfaces (or at the deadline, if that comes first),
    the error is in the log from the moment the failure surfaces, [init]
    never queries the backend, and until the poll's first tick nothing
    queries it and the status is still Unknown. *)
Theorem listeners_failure_is_swallowed (e : Env)
  (Habs : absent e = false) (Hf : listeners_fail e) :
  (forall s, exec e (ListenersSettled Rejected) s = init_failed s) /\
  (forall s, backend (init_failed s) = backend s /\
             isInitializing (init_failed s) = false /\
             checks FromInit (trace (init_failed s))
               = checks FromInit (trace s) /\
             In (now s, Console Err "[App] Failed to initialize:")
                (trace (init_failed s)) /\
             Forall (fun t => has_handle (forceShowUI s) t = false)
                    (queue (init_failed s))) /\
  ready_time e = N.min (failure_time e) 3000 /\
  (forall T, isInitializing (run e T)
             = (T <? N.min (failure_time e) 3000)) /\
  (forall T, failure_time e <= T ->
             In (failure_time e, Console Err "[App] Failed to initialize:")
                (trace (run e T))) /\
  (forall T, checks FromInit (trace (run e T)) = []) /\
  (forall T, T < 10000 ->
             backend (run e T) = Unknown /\
             forall c, checks c (trace (run e T)) = []).
Proof.
  assert (RT : ready_time e = N.min (failure_time e) 3000).
  { unfold ready_time, failure_time. rewrite Habs.
    destruct Hf as [->|[d ->]]; reflexivity. }
  assert (Hs : skips_check e).
  { right. intros L HL. destruct Hf as [Hf|[d Hf]]; congruence. }
  split; [reflexivity|].
  split; [|split; [exact RT|split; [|split; [|split]]]].
  - intros s. repeat split; try reflexivity.
    + ops. right. right. right. left. reflexivity.
    + ops. apply Forall_forall. intros t Ht.
      apply filter_In in Ht as [_ Ht].
      destruct (has_handle (forceShowUI s) t); [discriminate|reflexivity].
  - intros T. destruct (run_flag e T) as [-> _]. rewrite RT. reflexivity.
  - intros T HT. apply run_failure_logged; assumption.
  - intros T. apply run_no_init_check, Hs.
  - intros T HT.
    assert (He : early e T).
    { split; [exact HT|]. intros _ L d HL _.
      destruct Hs as [Hs|Hs]; [congruence|]. destruct (Hs L HL). }
    pose proof (run_untouched e T He) as HU.
    split; [apply (u_backend _ HU)|].
    intros [| |]; [apply run_no_init_check, Hs| |];
      apply (untouched_checks _ HU).
Qed.

Lemma listeners_failure_is_swallowed_witness :
  (forall s, exec rejecting_listeners (ListenersSettled Rejected) s
             = init_failed s) /\
  (forall s, backend (init_failed s) = backend s /\
             isInitializing (init_failed s) = false /\
             checks FromInit (trace (init_failed s))
               = checks FromInit (trace s) /\
             In (now s, Console Err "[App] Failed to initialize:")
                (trace (init_failed s)) /\
             Forall (fun t => has_handle (forceShowUI s) t = false)
                    (queue (init_failed s))) /\
  ready_time rejecting_listeners
    = N.min (failure_time rejecting_listeners) 3000 /\
  (forall T, isInitializing (run rejecting_listeners T)
             = (T <? N.min (failure_time rejecting_listeners) 3000)) /\
  (forall T, failure_time rejecting_listeners <= T ->
             In (failure_time rejecting_listeners,
                 Console Err "[App] Failed to initialize:")
                (trace (run rejecting_listeners T))) /\
  (forall T, checks FromInit (trace (run rejecting_listeners T)) = []) /\
  (forall T, T < 10000 ->
             backend (run rejecting_listeners T) = Unknown /\
             forall c, checks c (trace (run rejecting_listeners T)) = []).
Proof.
  apply (listeners_failure_is_swallowed rejecting_listeners).
  - reflexivity.
  - right. exists 100. reflexivity.
Defined.

(** ** Rejections of the status check *)

(** C6.  A rejection of [checkNexusStatus] is caught where [init] calls it
    (the inner [catch] warns) and where the poll calls it (its [.catch]
    logs the error), but not where the Retry button calls it: there the
    rejected promise has no handler.  In every run an unhandled rejection
    can only come from the Retry button, and it does come: with a backend
    whose queries fail after 100 ms and reject, the first check's failure
    is logged at 100 ms and the poll's at 10100 ms, and the press on Retry
    at 5000 ms ends in an unhandled rejection at 5100 ms. *)
Theorem retry_rejection_is_unhandled :
  (forall e st s,
     trace (exec e (StatusSettled FromRetry st Rejected) s)
     = (now s, Unhandled FromRetry) :: trace s) /\
  (forall e st s,
     trace (exec e (StatusSettled FromPoll st Rejected) s)
     = (now s, Console Err "[App] Status check failed:") :: trace s) /\
  (forall e st s, racing s = true ->
     In (now s, Console Warn "[App] Status check failed or timed out:")
        (trace (exec e (StatusSettled FromInit st Rejected) s))) /\
  (forall e T t c, In (t, Unhandled c) (trace (run e T)) -> c = FromRetry) /\
  checks FromRetry (trace (run flaky_backend 11000)) = [5000] /\
  filter (fun x => match snd x with Unhandled _ => true | _ => false end)
         (trace (run flaky_backend 11000))
  = [(5100, Unhandled FromRetry)] /\
  In (100, Console Warn "[App] Status check failed or timed out:")
     (trace (run flaky_backend 11000)) /\
  In (10100, Console Err "[App] Status check failed:")
     (trace (run flaky_backend 11000)).
Proof.
  split; [reflexivity|]. split; [reflexivity|]. split; [|split].
  - intros e st s Hr. cbn [exec]. cbn [racing set_backend]. rewrite Hr.
    ops. right. right. right. left. reflexivity.
  - apply run_unhandled.
  - vm_compute. repeat split; auto 20.
Qed.

(** ** The recurring poll *)

(** C7, as stated, fails: the poll does not begin once Ready.  Its interval
    is armed by the effect, while the loading screen is still up; and with
    Ready reached at 550 ms the poll has called [checkNexusStatus] at 10000
    and 20000 ms, not at 10550 and 20550 ms. *)
Lemma poll_is_armed_before_ready :
  isInitializing (started quick_backend) = true /\
  queue (started quick_backend)
    = [listeners_task 50 Fulfilled; deadline_task; first_tick] /\
  flips (trace (run quick_backend 20549)) = [550] /\
  checks FromPoll (trace (run quick_backend 20549)) = [20000; 10000].
Proof. vm_compute. repeat split. Qed.

(** C7, amended.  The effect arms the poll's interval when it runs,
    whatever the readiness.  The poll calls [checkNexusStatus] every
    10000 ms counted from that moment: every call is at a multiple of
    10000 ms, when the loading screen is long gone, and the call at each
    multiple of 10000 ms does happen, for as long as the teardown has not
    come.  Once the teardown time has passed the cleanup has run, no tick
    is left in the queue, and nothing the trace holds after the cleanup is
    a call from the poll. *)
Theorem poll_ticks_from_the_effect (e : Env) :
  In first_tick (queue (started e)) /\
  (forall T t, In t (checks FromPoll (trace (run e T))) ->
     (exists k, t = 10000 * (k + 1)) /\ isInitializing (run e t) = false) /\
  (forall T k, 10000 * (k + 1) <= T ->
     (forall td, teardown e = Some td -> 10000 * (k + 1) < td) ->
     In (10000 * (k + 1)) (checks FromPoll (trace (run e T)))) /\
  (forall T td, teardown e = Some td -> td <= T ->
     mounted (run e T) = false /\
     Forall (fun t => act t <> PollTick) (queue (run e T))) /\
  (forall T, match since_cleanup (trace (run e T)) with
             | Some l => checks FromPoll l = []
             | None => True
             end).
Proof.
  split; [|split; [|split; [|split]]].
  - apply started_first_tick.
  - intros T t Ht.
    pose proof (p_times e _ (run_polling e T)) as H.
    rewrite Forall_forall in H. apply checks_In in Ht.
    destruct (H _ Ht eq_refl) as [k Hk]. cbn [fst] in Hk.
    split; [exists k; exact Hk|].
    destruct (run_flag e t) as [-> _]. apply N.ltb_ge.
    pose proof (ready_time_le e). lia.
  - intros T k. apply run_tick.
  - intros T td Htd HT.
    pose proof (run_unmounted e T td Htd HT) as Hm.
    split; [exact Hm|]. apply (p_down e _ (run_polling e T) Hm).
  - intros T. pose proof (run_polling e T) as HP.
    destruct (mounted (run e T)) eqn:Hm.
    + destruct (p_up e _ HP Hm) as (_ & _ & ->). exact I.
    + destruct (p_down e _ HP Hm) as (_ & _ & (l & -> & Hl)). exact Hl.
Qed.

(** ** The bootstrap loader *)

(** C8.  The loader looks the root element up exactly once.  When the page
    has it, the loader creates one root on it and renders once, and reports
    no error; when it has not, the loader reports the error and creates and
    renders nothing, with no second lookup. *)
Theorem bootstrap_activates_once (doc : Bootstrap.Document) :
  Bootstrap.lookups (Bootstrap.main doc) = ["root"%string] /\
  match Bootstrap.getElementById doc "root" with
  | Some el =>
      Bootstrap.roots_created (Bootstrap.main doc) = [el] /\
      Bootstrap.renders (Bootstrap.main doc) = [el] /\
      Bootstrap.errors (Bootstrap.main doc) = []
  | None =>
      Bootstrap.roots_created (Bootstrap.main doc) = [] /\
      Bootstrap.renders (Bootstrap.main doc) = [] /\
      Bootstrap.errors (Bootstrap.main doc) =
        ["[main.tsx] Root element not found!"%string]
  end.
Proof.
  unfold Bootstrap.main.
  destruct (Bootstrap.getElementById doc "root") as [el|];
    repeat split; reflexivity.
Qed.

(** ** The banner *)

(** C9.  Once Ready, the warning banner (which carries the Retry button)
    is rendered exactly when the status is "disconnected" or "error", so
    for Disconnected and Error and not for Unknown and Connected; the main
    layout is rendered in either case and the loading screen in neither;
    and a press on Retry calls [checkNexusStatus] exactly when the banner
    is on screen. *)
Theorem banner_iff_disconnected_or_error (status : string) :
  (shows WarningBanner (render false status) = true <->
   status = "disconnected"%string \/ status = "error"%string) /\
  shows MainLayout (render false status) = true /\
  shows LoadingScreen (render false status) = false /\
  (forall b, shows WarningBanner (render false (status_str b)) = true <->
             b = Disconnected \/ b = Error) /\
  (forall e s, mounted s = true -> isInitializing s = false ->
     checks FromRetry (trace (exec e RetryClick s)) =
       if showConnectionWarning (status_str (backend s))
       then now s :: checks FromRetry (trace s)
       else checks FromRetry (trace s)).
Proof.
  split; [|split; [|split; [|split]]].
  - rewrite shows_banner. apply showConnectionWarning_iff.
  - unfold render. destruct (showConnectionWarning status); reflexivity.
  - unfold render. destruct (showConnectionWarning status); reflexivity.
  - intros b. rewrite shows_banner.
    destruct b; cbn; split; intros H; try discriminate; auto;
      destruct H; discriminate.
  - intros e s Hm Hi. cbn [exec]. rewrite Hm, Hi, shows_banner.
    destruct (showConnectionWarning _); cbn [andb]; [|reflexivity].
    rewrite check_grows. reflexivity.
Qed.

(** ** Teardown while the loading screen is up *)

(** C10.  The cleanup removes from the queue only the tasks that carry the
    interval's handle and touches neither the flag nor the race: a pending
    deadline and a pending step of [init] stay queued.  So whenever the
    loading screen is still up after the cleanup, the deadline is still
    armed; and when the teardown comes before the moment the loading
    screen goes, the setter is still called at that moment, after the
    cleanup: by the deadline callback when [init] hangs, by the [finally]
    block when [init] completes after the teardown. *)
Theorem cleanup_cancels_only_the_poll :
  (forall e s x, In x (queue s) -> has_handle (interval s) x = false ->
                 In x (queue (exec e Cleanup s))) /\
  (forall e s,
     isInitializing (exec e Cleanup s) = isInitializing s /\
     racing (exec e Cleanup s) = racing s /\
     trace (exec e Cleanup s)
     = (now s, ClearTimer (interval s)) :: (now s, CleanupRan) :: trace s) /\
  (forall e T, mounted (run e T) = false ->
     isInitializing (run e T) = true ->
     exists x, In x (queue (run e T)) /\ act x = ForceShowUI /\
               due x = 3000) /\
  (forall e td T, teardown e = Some td -> td < ready_time e ->
     ready_time e <= T ->
     In (td, CleanupRan) (trace (run e T)) /\
     In (ready_time e, SetIsInitializing true false) (trace (run e T))) /\
  option_map flips (since_cleanup (trace (run unmounted_early 3000)))
    = Some [3000] /\
  option_map flips (since_cleanup (trace (run unmounted_mid_init 2500)))
    = Some [2100].
Proof.
  split; [|split; [|split; [|split; [|split]]]].
  - intros e s x Hx Hh. cbn [exec]. ops. apply filter_In. rewrite Hh. auto.
  - intros e s. repeat split; reflexivity.
  - intros e T _ Hi.
    destruct (run_facts e T) as (HB & HR & _).
    destruct (r_init e _ HR Hi) as (_ & _ & (x & Hx & Hax & _) & _).
    exists x. split; [exact Hx|]. split; [exact Hax|].
    pose proof (b_ok e _ HB) as Hok. rewrite Forall_forall in Hok.
    destruct (Hok x Hx) as (_ & _ & Ht). unfold timing in Ht.
    rewrite Hax in Ht. exact Ht.
  - intros e td T Htd Hlt HT. split.
    + assert (Hm : mounted (run e T) = false)
        by (apply (run_unmounted e T td Htd); lia).
      destruct (p_down e _ (run_polling e T) Hm)
        as (_ & (td' & Htd' & _ & Hran & _) & _).
      congruence.
    + destruct (run_flag e T) as [_ Hf].
      assert (E : (T <? ready_time e) = false) by (apply N.ltb_ge; lia).
      rewrite E in Hf.
      assert (Hin : In (ready_time e) (flips (trace (run e T))))
        by (rewrite Hf; left; reflexivity).
      apply flips_In in Hin as (old & new & Hin & Hne).
      pose proof (run_setter_false e T) as Hs.
      rewrite Forall_forall in Hs. specialize (Hs _ Hin).
      unfold setter_false in Hs. cbn in Hs. subst new.
      destruct old; [exact Hin|congruence].
  - vm_compute. reflexivity.
  - vm_compute. reflexivity.
Qed.

(* ====================================================================== *)
(** * Further properties of the code *)
(* ====================================================================== *)








(** X6.  Unless the teardown comes at the very moment of a tick, the poll
    calls [checkNexusStatus] exactly once at every multiple of 10000 ms for
    which the interval is still armed, and at no other time: up to the time
    of observation, or up to the teardown if that came before. *)
Theorem poll_calls_once_per_tick (e : Env) (T : N) (Hoff : off_beat e) :
  checks FromPoll (trace (run e T))
  = poll_times (N.to_nat (horizon e T / 10000)).
Proof.
  destruct (run_ticks e T) as (k & Hk & Hn & Hm).
  destruct (run_facts e T) as (HB & _ & HN).
  pose proof (run_quiescent e T) as HQ.
  rewrite Hk. f_equal. symmetry. unfold horizon.
  destruct (mounted (run e T)) eqn:Em.
  - destruct (sub_pending _ T _ _ _ HQ Hm) as [_ Hlt].
    cbn [due tick] in Hlt.
    assert (Hh : match teardown e with
                 | Some td => N.min td T
                 | None => T
                 end = T).
    { destruct (teardown e) as [td|] eqn:Etd; [|reflexivity].
      destruct (N.le_gt_cases td T) as [Hle|Hgt]; [|lia].
      rewrite (run_unmounted e T td Etd Hle) in Em. discriminate. }
    rewrite Hh. apply div_between; lia.
  - destruct Hm as (_ & td & Etd & Hlo & Hhi).
    destruct (p_down e _ (run_polling e T) Em) as (_ & (td' & Etd' & Hle & _) & _).
    rewrite Etd in Etd'. inversion Etd'; subst td'. rewrite Etd.
    replace (N.min td T) with td by lia.
    apply div_between; [exact Hlo|].
    assert (td <> 10000 * N.of_nat (S k)); [|lia].
    intros ->. apply (Hoff _ Etd).
    rewrite N.mul_comm. apply N.Div0.mod_mul.
Qed.

Lemma poll_calls_once_per_tick_witness :
  off_beat quick_backend /\
  checks FromPoll (trace (run quick_backend 25000)) = [20000; 10000].
Proof.
  assert (H : off_beat quick_backend) by (intros td Htd; discriminate Htd).
  split; [exact H|]. apply (poll_calls_once_per_tick quick_backend 25000 H).
Defined.

(** X7.  [initializeTauriListeners] is called by the effect itself, at
    time 0, when the bridge is there; no later task calls it, and it is
    never called when the bridge is absent. *)
Theorem listeners_registered_by_the_effect (e : Env) (T t : N) :
  In t (times is_listeners_call (trace (run e T))) <->
  t = 0 /\ absent e = false.
Proof.
  rewrite run_listeners_calls. destruct (absent e).
  - split; [intros []|]. intros [_ H]. discriminate.
  - split.
    + intros [<-|[]]. auto.
    + intros [-> _]. left. reflexivity.
Qed.

(** X8.  Every call of [checkNexusStatus] made for the Retry button is
    made at the time of a press, and not before the loading screen has
    gone. *)
Theorem retry_only_on_press (e : Env) (T : N) :
  Forall (fun t => In t (clicks e) /\ ready_time e <= t)
         (checks FromRetry (trace (run e T))).
Proof.
  apply (run_invariant e T (Retry_inv e)).
  - apply started_retry.
  - intros s t q HB HR _ HI Hq _. apply (retry_step e s t q HB HR HI Hq).
Qed.

(** X9.  What is on screen over a run: nothing once the teardown has come;
    until then the loading screen, alone, before [ready_time e], and from
    then on what the status calls for, which always has the main layout
    and never the loading screen.  The banner is on screen only between
    the moment the loading screen goes and the teardown. *)
Theorem screen_over_a_run (e : Env) (T : N) :
  screen e T = (if torn_down e T then []
                else if T <? ready_time e then [LoadingScreen]
                else render false (status_str (backend (run e T)))) /\
  shows LoadingScreen (screen e T)
  = negb (torn_down e T) && (T <? ready_time e) /\
  shows MainLayout (screen e T)
  = negb (torn_down e T) && negb (T <? ready_time e) /\
  (shows WarningBanner (screen e T) = true ->
   ready_time e <= T /\ torn_down e T = false).
Proof.
  unfold screen. rewrite run_mounted.
  destruct (run_flag e T) as [-> _].
  destruct (torn_down e T); cbn [negb andb].
  - repeat split; try reflexivity; discriminate.
  - destruct (T <? ready_time e) eqn:E.
    + repeat split; try reflexivity; discriminate.
    + apply N.ltb_ge in E. unfold render.
      destruct (showConnectionWarning _); repeat split; auto.
Qed.

(** X10.  The loader renders into an element exactly when that is the
    first element of the page whose id is "root", and it reports the
    missing root exactly when no element of the page has that id. *)
Theorem bootstrap_mounts_first_root (doc : Bootstrap.Document) :
  (forall el,
     Bootstrap.renders (Bootstrap.main doc) = [el] <->
     exists l1 l2,
       doc = (l1 ++ el :: l2)%list /\ Bootstrap.elem_id el = "root" /\
       Forall (fun x => Bootstrap.elem_id x <> "root") l1) /\
  (Bootstrap.errors (Bootstrap.main doc)
   = ["[main.tsx] Root element not found!"] <->
   Forall (fun x => Bootstrap.elem_id x <> "root") doc).
Proof.
  assert (Hfind : forall el,
            Bootstrap.getElementById doc "root" = Some el <->
            exists l1 l2,
              doc = (l1 ++ el :: l2)%list /\
              Bootstrap.elem_id el = "root" /\
              Forall (fun x => Bootstrap.elem_id x <> "root") l1).
  { intros el. unfold Bootstrap.getElementById. rewrite find_first.
    split; intros (l1 & l2 & H1 & H2 & H3); exists l1, l2.
    - split; [exact H1|]. split; [apply String.eqb_eq; exact H2|].
      eapply Forall_impl; [|exact H3]. cbn. intros y Hy.
      apply String.eqb_neq. exact Hy.
    - split; [exact H1|]. split; [apply String.eqb_eq; exact H2|].
      eapply Forall_impl; [|exact H3]. cbn. intros y Hy.
      apply String.eqb_neq. exact Hy. }
  split.
  - intros el. rewrite <- Hfind. unfold Bootstrap.main.
    destruct (Bootstrap.getElementById doc "root") as [r|]; cbn.
    + split; intros H; inversion H; reflexivity.
    + split; discriminate.
  - unfold Bootstrap.main.
    destruct (Bootstrap.getElementById doc "root") as [r|] eqn:E; cbn.
    + split; [discriminate|]. intros HF.
      destruct (proj1 (Hfind r) eq_refl) as (l1 & l2 & Hdoc & Hid & _).
      rewrite Forall_forall in HF. exfalso.
      apply (HF r); [|exact Hid].
      rewrite Hdoc. apply in_or_app. right. left. reflexivity.
    + split; [|reflexivity]. intros _.
      apply Forall_forall. intros x Hx Hid.
      unfold Bootstrap.getElementById in E.
      apply (find_none _ _ E) in Hx. apply String.eqb_neq in Hx. auto.
Qed.
